(** * Connection configuration of the Snowflake Node.js driver

    A shallow embedding of [lib/connection/connection_config.js]: the
    [ConnectionConfig] constructor, [clearCredentials], [createParameters]
    and [_getParameterValue], followed by the properties that the
    specification states about them. *)

From Stdlib Require Import List String Ascii Bool ZArith QArith Qround Lia.
From Stdlib Require Import Permutation.
Import ListNotations.

Local Open Scope string_scope.
Local Open Scope Z_scope.

(** ** JavaScript values

    Strings are sequences of code units; the only character the code looks
    for is the dot, a single unit.  Numbers are the finite ones, as exact
    rationals (every finite double is one); NaN and the infinities are left
    out, the predicates that would judge them being in a file that is not
    among the sources.  Objects are plain data objects: property lists in
    insertion order, the order in which [for ... in] visits them (JavaScript
    moves names that are array indices to the front; the order is shown not
    to matter below), with no accessor properties and with the
    [hasOwnProperty] of [Object.prototype]. *)

#[local] Set Warnings "-register-all".

Inductive JsValue : Type :=
| VUndefined
| VNull
| VBool (b : bool)
| VNum (q : Q)
| VStr (s : string)
| VArr (elems : list JsValue)
| VObj (props : list (string * JsValue)).

Definition object := list (string * JsValue).

(** Property lists, for the options object and for the parameter map. *)
Section PropertyList.

Context {A : Type}.

(** The own property [k], if there is one. *)
Fixpoint own (o : list (string * A)) (k : string) : option A :=
  match o with
  | [] => None
  | (k', v) :: rest => if String.eqb k k' then Some v else own rest k
  end.

(** [o[k] = v]: an existing property keeps its place, a new one goes
    last. *)
Fixpoint set (o : list (string * A)) (k : string) (v : A)
    : list (string * A) :=
  match o with
  | [] => [(k, v)]
  | (k', v') :: rest =>
      if String.eqb k k' then (k', v) :: rest else (k', v') :: set rest k v
  end.

(** The names that [for (k in o)] enumerates. *)
Definition keys (o : list (string * A)) : list string := map fst o.

(** [o.hasOwnProperty(k)] *)
Definition has (o : list (string * A)) (k : string) : bool :=
  match own o k with Some _ => true | None => false end.

End PropertyList.

(** [o[k]]: the property's value, [undefined] when there is none. *)
Definition get (o : object) (k : string) : JsValue :=
  match own o k with Some v => v | None => VUndefined end.

(** A JavaScript object holds each property name once. *)
Definition wf_object (o : object) : Prop := NoDup (keys o).

(** Property read on an arbitrary value that is known to be an object. *)
Definition get_prop (v : JsValue) (k : string) : JsValue :=
  match v with
  | VObj o => get o k
  | _ => VUndefined
  end.

(** Conversion to boolean, as done by [if (x)] and [a && b]. *)
Definition truthy (v : JsValue) : bool :=
  match v with
  | VUndefined | VNull => false
  | VBool b => b
  | VNum q => negb (Qeq_bool q 0)
  | VStr s => negb (String.eqb s "")
  | VArr _ | VObj _ => true
  end.

(** ** String primitives used by the constructor *)

(** [s.indexOf(c)] for a one-unit needle: position of the first occurrence,
    or -1. *)
Fixpoint indexOf (s : string) (c : ascii) : Z :=
  match s with
  | EmptyString => -1
  | String a rest =>
      if Ascii.eqb a c then 0
      else let r := indexOf rest c in if r <? 0 then -1 else r + 1
  end.

Definition str_length (s : string) : Z := Z.of_nat (String.length s).

Definition clamp (i len : Z) : Z := Z.max 0 (Z.min i len).

(** [s.substring(from, to)]: both ends are clamped to the string and swapped
    when out of order. *)
Definition substring2 (s : string) (from to : Z) : string :=
  let a := clamp from (str_length s) in
  let b := clamp to (str_length s) in
  let lo := Z.min a b in
  let hi := Z.max a b in
  String.substring (Z.to_nat lo) (Z.to_nat (hi - lo)) s.

(** [s.substring(from)]. *)
Definition substring1 (s : string) (from : Z) : string :=
  substring2 s from (str_length s).

(** ** The [Util] module

    lib/util.js is not among the sources.  Its predicates are taken as the
    type tests that their names and the specification's field table give. *)
Module Util.

(** Modelled from the spec: [Util.exists], of lib/util.js; a value exists
    when it is neither null nor undefined. *)
Definition exists_ (v : JsValue) : bool :=
  match v with
  | VUndefined | VNull => false
  | _ => true
  end.

(** Modelled from the spec: [Util.isString], of lib/util.js. *)
Definition isString (v : JsValue) : bool :=
  match v with VStr _ => true | _ => false end.

(** Modelled from the spec: [Util.isObject], of lib/util.js; an object as
    opposed to an array or a primitive value. *)
Definition isObject (v : JsValue) : bool :=
  match v with VObj _ => true | _ => false end.

(** Modelled from the spec: [Util.isNumber], of lib/util.js. *)
Definition isNumber (v : JsValue) : bool :=
  match v with VNum _ => true | _ => false end.

(** Modelled from the spec: [Util.isBoolean], of lib/util.js. *)
Definition isBoolean (v : JsValue) : bool :=
  match v with VBool _ => true | _ => false end.

(** Modelled from the spec: [Util.isArray], of lib/util.js. *)
Definition isArray (v : JsValue) : bool :=
  match v with VArr _ => true | _ => false end.

(** Modelled from the spec: [Util.format], of lib/util.js, on the access-url
    template, whose two [%s] directives take two strings. *)
Definition format_access_url (account region : string) : string :=
  "https://" ++ account ++ region ++ ".snowflakecomputing.com".

Module number.

(** Modelled from the spec: [Util.number.isInteger], of lib/util.js. *)
Definition isInteger (v : JsValue) : bool :=
  match v with
  | VNum q => Qeq_bool (inject_Z (Qfloor q)) q
  | _ => false
  end.

(** Modelled from the spec: [Util.number.isPositiveInteger], of lib/util.js,
    the "positive-int" validator of the catalog. *)
Definition isPositiveInteger (v : JsValue) : bool :=
  match v with
  | VNum q => isInteger v && negb (Qle_bool q 0)
  | _ => false
  end.

(** Modelled from the spec: [Util.number.isNonNegativeInteger], of
    lib/util.js, the "non-negative-int" validator of the catalog. *)
Definition isNonNegativeInteger (v : JsValue) : bool :=
  match v with
  | VNum q => isInteger v && Qle_bool 0 q
  | _ => false
  end.

(** Modelled from the spec: [Util.number.isNonNegative], of lib/util.js, the
    "non-negative-number" validator of the catalog. *)
Definition isNonNegative (v : JsValue) : bool :=
  match v with
  | VNum q => Qle_bool 0 q
  | _ => false
  end.

End number.

End Util.

(** ** The [Errors] module

    lib/errors.js is not among the sources.  The three check functions throw
    a missing-field error, an invalid-field error and an internal assertion
    failure, the three classes of the specification's error taxonomy. *)

(** Modelled from the spec: [Errors.codes], of lib/errors.js; the codes that
    the constructor names. *)
Inductive ErrorCode : Type :=
| ERR_CONN_CREATE_MISSING_OPTIONS
| ERR_CONN_CREATE_INVALID_OPTIONS
| ERR_CONN_CREATE_MISSING_USERNAME
| ERR_CONN_CREATE_INVALID_USERNAME
| ERR_CONN_CREATE_MISSING_PASSWORD
| ERR_CONN_CREATE_INVALID_PASSWORD
| ERR_CONN_CREATE_MISSING_ACCOUNT
| ERR_CONN_CREATE_INVALID_ACCOUNT
| ERR_CONN_CREATE_INVALID_REGION
| ERR_CONN_CREATE_MISSING_ACCESS_URL
| ERR_CONN_CREATE_INVALID_ACCESS_URL
| ERR_CONN_CREATE_MISSING_PROXY_HOST
| ERR_CONN_CREATE_INVALID_PROXY_HOST
| ERR_CONN_CREATE_MISSING_PROXY_PORT
| ERR_CONN_CREATE_INVALID_PROXY_PORT
| ERR_CONN_CREATE_INVALID_WAREHOUSE
| ERR_CONN_CREATE_INVALID_DATABASE
| ERR_CONN_CREATE_INVALID_SCHEMA
| ERR_CONN_CREATE_INVALID_ROLE
| ERR_CONN_CREATE_INVALID_STREAM_RESULT
| ERR_CONN_CREATE_INVALID_FETCH_AS_STRING
| ERR_CONN_CREATE_INVALID_FETCH_AS_STRING_VALUES.

(** Modelled from the spec: the errors that the check functions of
    lib/errors.js throw; an invalid-field error carries the offending value
    when the constructor passes one.  [TypeError] is the error of the
    language itself, thrown when what is called is not a function. *)
Inductive error : Type :=
| MissingParameterError (code : ErrorCode)
| InvalidParameterError (code : ErrorCode) (detail : JsValue)
| InternalAssertError
| TypeError.

(** ** Constructor steps: the caller's options object is the state, a thrown
    error ends the run *)

Definition M (A : Type) : Type := object -> object * (error + A).

Definition ret {A} (a : A) : M A := fun o => (o, inr a).

Definition throw {A} (e : error) : M A := fun o => (o, inl e).

Definition bind {A B} (m : M A) (f : A -> M B) : M B :=
  fun o =>
    match m o with
    | (o', inl e) => (o', inl e)
    | (o', inr a) => f a o'
    end.

Notation "x <- m ;; k" := (bind m (fun x => k))
  (at level 61, m at next level, right associativity).
Notation "m ;;; k" := (bind m (fun _ => k))
  (at level 61, right associativity).

(** [options.k] *)
Definition read (k : string) : M JsValue := fun o => (o, inr (get o k)).

(** [options.k = v] *)
Definition write (k : string) (v : JsValue) : M unit :=
  fun o => (set o k v, inr tt).

(** The options object itself, for the property scan. *)
Definition snapshot : M object := fun o => (o, inr o).

(** A computation that does not write to the options: it throws its error
    or returns its result. *)
Definition lift {A} (r : error + A) : M A := fun o => (o, r).

Module Errors.

(** Modelled from the spec: [Errors.checkArgumentExists], of lib/errors.js. *)
Definition checkArgumentExists (cond : bool) (code : ErrorCode) : M unit :=
  if cond then ret tt else throw (MissingParameterError code).

(** Modelled from the spec: [Errors.checkArgumentValid], of lib/errors.js. *)
Definition checkArgumentValid (cond : bool) (code : ErrorCode)
    (detail : JsValue) : M unit :=
  if cond then ret tt else throw (InvalidParameterError code detail).

(** Modelled from the spec: [Errors.assertInternal], of lib/errors.js. *)
Definition assertInternal (cond : bool) : M unit :=
  if cond then ret tt else throw InternalAssertError.

End Errors.

(** ** The parameter catalog *)

Record Param : Type := mkParam {
  name : string;
  defaultValue : JsValue;
  (** a descriptor without the [external] property reads as not external *)
  external : bool;
  validate : JsValue -> bool;
  value : JsValue
}.

Definition with_value (p : Param) (v : JsValue) : Param :=
  {| name := name p; defaultValue := defaultValue p; external := external p;
     validate := validate p; value := v |}.

Definition PARAM_TIMEOUT := "timeout".
Definition PARAM_RESULT_PREFETCH := "resultPrefetch".
Definition PARAM_RESULT_STREAM_INTERRUPTS := "resultStreamInterrupts".
Definition PARAM_RESULT_CHUNK_CACHE_SIZE := "resultChunkCacheSize".
Definition PARAM_RESULT_PROCESSING_BATCH_SIZE := "resultProcessingBatchSize".
Definition PARAM_RESULT_PROCESSING_BATCH_DURATION :=
  "resultProcessingBatchDuration".
Definition PARAM_ROW_STREAM_HIGH_WATER_MARK := "rowStreamHighWaterMark".
Definition PARAM_RETRY_LARGE_RESULT_SET_MAX_NUM_RETRIES :=
  "largeResultSetRetryMaxNumRetries".
Definition PARAM_RETRY_LARGE_RESULT_SET_MAX_SLEEP_TIME :=
  "largeResultSetRetryMaxSleepTime".
Definition PARAM_RETRY_SF_MAX_NUM_RETRIES := "sfRetryMaxNumRetries".
Definition PARAM_RETRY_SF_STARTING_SLEEP_TIME := "sfRetryStartingSleepTime".
Definition PARAM_RETRY_SF_MAX_SLEEP_TIME := "sfRetryMaxSleepTime".

(** A freshly created descriptor has no [value] property yet. *)
Definition descriptor (n : string) (d : Q) (ext : bool)
    (check : JsValue -> bool) : Param :=
  {| name := n; defaultValue := VNum d; external := ext; validate := check;
     value := VUndefined |}.

Definition createParameters : list Param :=
  let isNonNegativeInteger := Util.number.isNonNegativeInteger in
  let isPositiveInteger := Util.number.isPositiveInteger in
  let isNonNegativeNumber := Util.number.isNonNegative in
  [ descriptor PARAM_TIMEOUT (inject_Z (90 * 1000)) true isPositiveInteger;
    descriptor PARAM_RESULT_PREFETCH 2 true isPositiveInteger;
    descriptor PARAM_RESULT_STREAM_INTERRUPTS 3 false isPositiveInteger;
    descriptor PARAM_RESULT_CHUNK_CACHE_SIZE 1 false isPositiveInteger;
    descriptor PARAM_RESULT_PROCESSING_BATCH_SIZE 1000 false
      isPositiveInteger;
    descriptor PARAM_RESULT_PROCESSING_BATCH_DURATION 100 false
      isPositiveInteger;
    descriptor PARAM_ROW_STREAM_HIGH_WATER_MARK 10 false isPositiveInteger;
    descriptor PARAM_RETRY_LARGE_RESULT_SET_MAX_NUM_RETRIES 10 false
      isNonNegativeInteger;
    descriptor PARAM_RETRY_LARGE_RESULT_SET_MAX_SLEEP_TIME 16 false
      isNonNegativeInteger;
    descriptor PARAM_RETRY_SF_MAX_NUM_RETRIES 1000 false
      isNonNegativeInteger;
    descriptor PARAM_RETRY_SF_STARTING_SLEEP_TIME (1 # 4) false
      isNonNegativeNumber;
    descriptor PARAM_RETRY_SF_MAX_SLEEP_TIME 16 false isNonNegativeNumber ].

Definition ParameterMap := list (string * Param).

(** The first loop of the constructor: enter every descriptor in the map
    under its name, its value set to the default. *)
Definition initParameters (parameters : list Param) : ParameterMap :=
  fold_left
    (fun mapParameters parameter =>
       set mapParameters (name parameter)
         (with_value parameter (defaultValue parameter)))
    parameters [].

(** [options.hasOwnProperty(propertyName)] (line 345).  The method is
    looked up on the options first: an own property named [hasOwnProperty]
    shadows the method of [Object.prototype], and, holding no function (the
    values modelled have none), cannot be called. *)
Definition callHasOwnProperty (options : object) (propertyName : string)
    : error + bool :=
  if has options "hasOwnProperty" then inl TypeError
  else inr (has options propertyName).

(** One round of the second loop, for the property [propertyName] of
    [options].  The parameter map holds the catalog's names only, so its
    [hasOwnProperty] is the method of [Object.prototype]. *)
Definition overrideStep (options : object) (mapParameters : ParameterMap)
    (propertyName : string) : error + ParameterMap :=
  match callHasOwnProperty options propertyName with
  | inl e => inl e
  | inr isOwn =>
      if isOwn && has mapParameters propertyName then
        let propertyValue := get options propertyName in
        match own mapParameters propertyName with
        | Some parameter =>
            if external parameter && validate parameter propertyValue
            then inr (set mapParameters propertyName
                        (with_value parameter propertyValue))
            else inr mapParameters
        | None => inr mapParameters
        end
      else inr mapParameters
  end.

(** The second loop: [for (propertyName in options)]; a round that throws
    ends it. *)
Definition overrideParameters (options : object)
    (mapParameters : ParameterMap) : error + ParameterMap :=
  fold_left
    (fun state propertyName =>
       match state with
       | inl e => inl e
       | inr map => overrideStep options map propertyName
       end)
    (keys options) (inr mapParameters).

(** ** The configuration object

    Besides its own properties ([_qaMode], [username], [password],
    [accessUrl], [account], [_mapParameters]) the record holds the local
    variables of the constructor that the accessor closures capture. *)
Record Config : Type := mkConfig {
  _qaMode : JsValue;
  proxy : JsValue;
  warehouse : JsValue;
  database : JsValue;
  schema : JsValue;
  role : JsValue;
  streamResult : JsValue;
  fetchAsString : JsValue;
  clientVersion : JsValue;
  clientEnvironment : JsValue;
  username : JsValue;
  password : JsValue;
  accessUrl : JsValue;
  account : JsValue;
  _mapParameters : ParameterMap
}.

(** ** The constructor *)

Section Constructor.

(** Modelled from the spec: the result of [Util.isNode()], of lib/util.js;
    whether the driver runs in node, the "server-capable" context. *)
Variable isNode : bool.

(** Modelled from the spec: [NativeTypes.isValidValue] of
    lib/connection/result/data_types.js, the membership test of the fixed
    set of recognized native type names, which the specification does not
    list. *)
Variable isValidValue : JsValue -> bool.

(** Modelled from the spec: [NativeTypes.findInvalidValue], the index of
    the first element that is not a recognized type name, -1 when every
    element is one. *)
Fixpoint findInvalidValueFrom (index : Z) (values : list JsValue) : Z :=
  match values with
  | [] => -1
  | v :: rest =>
      if isValidValue v then findInvalidValueFrom (index + 1) rest
      else index
  end.

(** The same, on a value already checked to be an array. *)
Definition findInvalidValue (v : JsValue) : Z :=
  match v with
  | VArr values => findInvalidValueFrom 0 values
  | _ => -1
  end.

(** [a[i]] on an array. *)
Definition element (v : JsValue) (i : Z) : JsValue :=
  match v with
  | VArr values =>
      if i <? 0 then VUndefined else nth (Z.to_nat i) values VUndefined
  | _ => VUndefined
  end.

(** The text of a value that is a string, as [%s] and [+] print it; both
    are only applied to values already checked to be strings. *)
Definition text (v : JsValue) : string :=
  match v with VStr s => s | _ => "" end.

(** Lines 40-62: the three credentials must exist and be strings. *)
Definition checkCredentials : M unit :=
  username <- read "username" ;;
  Errors.checkArgumentExists (Util.exists_ username)
    ERR_CONN_CREATE_MISSING_USERNAME ;;;
  username <- read "username" ;;
  Errors.checkArgumentValid (Util.isString username)
    ERR_CONN_CREATE_INVALID_USERNAME VUndefined ;;;
  password <- read "password" ;;
  Errors.checkArgumentExists (Util.exists_ password)
    ERR_CONN_CREATE_MISSING_PASSWORD ;;;
  password <- read "password" ;;
  Errors.checkArgumentValid (Util.isString password)
    ERR_CONN_CREATE_INVALID_PASSWORD VUndefined ;;;
  account <- read "account" ;;
  Errors.checkArgumentExists (Util.exists_ account)
    ERR_CONN_CREATE_MISSING_ACCOUNT ;;;
  account <- read "account" ;;
  Errors.checkArgumentValid (Util.isString account)
    ERR_CONN_CREATE_INVALID_ACCOUNT VUndefined.

(** Lines 64-71: a region included in the account is split off. *)
Definition splitAccount : M unit :=
  account <- read "account" ;;
  let dotPos := indexOf (text account) "." in
  if (0 <? dotPos) && (dotPos <? str_length (text account) - 1) then
    account <- read "account" ;;
    write "region" (VStr (substring1 (text account) (dotPos + 1))) ;;;
    account <- read "account" ;;
    write "account" (VStr (substring2 (text account) 0 dotPos))
  else ret tt.

(** Lines 73-100: without an access url, one is derived from the account
    and the region. *)
Definition deriveAccessUrl : M unit :=
  accessUrl <- read "accessUrl" ;;
  if negb (Util.exists_ accessUrl) then
    optionsRegion <- read "region" ;;
    region <-
      (if Util.exists_ optionsRegion then
         optionsRegion <- read "region" ;;
         Errors.checkArgumentValid (Util.isString optionsRegion)
           ERR_CONN_CREATE_INVALID_REGION VUndefined ;;;
         optionsRegion <- read "region" ;;
         if String.eqb (text optionsRegion) "us-west-2" then
           write "region" (VStr "") ;;; ret ""
         else
           optionsRegion <- read "region" ;;
           ret ("." ++ text optionsRegion)
       else ret "") ;;
    account <- read "account" ;;
    write "accessUrl"
      (VStr (Util.format_access_url (text account) region))
  else ret tt.

(** Lines 103-109: the access url must exist and be a string. *)
Definition checkAccessUrl : M unit :=
  accessUrl <- read "accessUrl" ;;
  Errors.checkArgumentExists (Util.exists_ accessUrl)
    ERR_CONN_CREATE_MISSING_ACCESS_URL ;;;
  accessUrl <- read "accessUrl" ;;
  Errors.checkArgumentValid (Util.isString accessUrl)
    ERR_CONN_CREATE_INVALID_ACCESS_URL VUndefined.

(** Lines 111-139: the proxy settings, only when running in node and some
    proxy information is given; the result is the local [proxy]. *)
Definition resolveProxy : M JsValue :=
  proxyHost <- read "proxyHost" ;;
  proxyPort <- read "proxyPort" ;;
  if isNode && (Util.exists_ proxyHost || Util.exists_ proxyPort) then
    Errors.checkArgumentExists (Util.exists_ proxyHost)
      ERR_CONN_CREATE_MISSING_PROXY_HOST ;;;
    Errors.checkArgumentValid (Util.isString proxyHost)
      ERR_CONN_CREATE_INVALID_PROXY_HOST VUndefined ;;;
    Errors.checkArgumentExists (Util.exists_ proxyPort)
      ERR_CONN_CREATE_MISSING_PROXY_PORT ;;;
    Errors.checkArgumentValid (Util.isNumber proxyPort)
      ERR_CONN_CREATE_INVALID_PROXY_PORT VUndefined ;;;
    ret (VObj [("host", proxyHost); ("port", proxyPort)])
  else ret VUndefined.

(** An optional field that must pass a type test when it exists. *)
Definition checkOptional (v : JsValue) (test : JsValue -> bool)
    (code : ErrorCode) : M unit :=
  if Util.exists_ v then Errors.checkArgumentValid (test v) code VUndefined
  else ret tt.

(** Lines 182-195: [fetchAsString] must be an array of recognized type
    names; the error carries the first element that is not one (the code
    passes its JSON text). *)
Definition checkFetchAsString (fetchAsString : JsValue) : M unit :=
  if Util.exists_ fetchAsString then
    Errors.checkArgumentValid (Util.isArray fetchAsString)
      ERR_CONN_CREATE_INVALID_FETCH_AS_STRING VUndefined ;;;
    let invalidValueIndex := findInvalidValue fetchAsString in
    Errors.checkArgumentValid (invalidValueIndex =? -1)
      ERR_CONN_CREATE_INVALID_FETCH_AS_STRING_VALUES
      (element fetchAsString invalidValueIndex)
  else ret tt.

(** Lines 200-211: the client information, asserted when given; the result
    is the pair of locals [clientVersion], [clientEnvironment]. *)
Definition checkClientInfo (clientInfo : JsValue)
    : M (JsValue * JsValue) :=
  if Util.exists_ clientInfo then
    Errors.assertInternal (Util.isObject clientInfo) ;;;
    Errors.assertInternal (Util.isString (get_prop clientInfo "version")) ;;;
    Errors.assertInternal
      (Util.isObject (get_prop clientInfo "environment")) ;;;
    ret (get_prop clientInfo "version", get_prop clientInfo "environment")
  else ret (VUndefined, VUndefined).

(** Lines 37-109: the credentials, when they are to be validated, and the
    access url. *)
Definition validateIdentity (validateCredentials : JsValue) : M unit :=
  (if truthy validateCredentials then
     checkCredentials ;;; splitAccount ;;; deriveAccessUrl
   else ret tt) ;;;
  checkAccessUrl.

(** Lines 111-360: the proxy, the optional fields, the client information
    and the parameters; the configuration is built at the end. *)
Definition configure (qaMode clientInfo : JsValue) : M Config :=
  proxy <- resolveProxy ;;
  warehouse <- read "warehouse" ;;
  database <- read "database" ;;
  schema <- read "schema" ;;
  role <- read "role" ;;
  checkOptional warehouse Util.isString ERR_CONN_CREATE_INVALID_WAREHOUSE ;;;
  checkOptional database Util.isString ERR_CONN_CREATE_INVALID_DATABASE ;;;
  checkOptional schema Util.isString ERR_CONN_CREATE_INVALID_SCHEMA ;;;
  checkOptional role Util.isString ERR_CONN_CREATE_INVALID_ROLE ;;;
  streamResult <- read "streamResult" ;;
  checkOptional streamResult Util.isBoolean
    ERR_CONN_CREATE_INVALID_STREAM_RESULT ;;;
  fetchAsString <- read "fetchAsString" ;;
  checkFetchAsString fetchAsString ;;;
  client <- checkClientInfo clientInfo ;;
  username <- read "username" ;;
  password <- read "password" ;;
  accessUrl <- read "accessUrl" ;;
  account <- read "account" ;;
  let parameters := createParameters in
  let mapParameters := initParameters parameters in
  options <- snapshot ;;
  mapParameters <- lift (overrideParameters options mapParameters) ;;
  ret {| _qaMode := qaMode;
         proxy := proxy;
         warehouse := warehouse;
         database := database;
         schema := schema;
         role := role;
         streamResult := streamResult;
         fetchAsString := fetchAsString;
         clientVersion := fst client;
         clientEnvironment := snd client;
         username := username;
         password := password;
         accessUrl := accessUrl;
         account := account;
         _mapParameters := mapParameters |}.

(** The constructor from line 37 on, run on the options object. *)
Definition construct (validateCredentials qaMode clientInfo : JsValue)
    : M Config :=
  validateIdentity validateCredentials ;;; configure qaMode clientInfo.

(** [new ConnectionConfig(options, validateCredentials, qaMode,
    clientInfo)]: the options object as the constructor leaves it, and
    either the error thrown or the configuration built. *)
Definition ConnectionConfig
    (options validateCredentials qaMode clientInfo : JsValue)
    : JsValue * (error + Config) :=
  let validateCredentials :=
    if negb (Util.exists_ validateCredentials) then VBool true
    else validateCredentials in
  if negb (Util.exists_ options) then
    (options, inl (MissingParameterError ERR_CONN_CREATE_MISSING_OPTIONS))
  else
    match options with
    | VObj o =>
        let (o', r) := construct validateCredentials qaMode clientInfo o in
        (VObj o', r)
    | _ =>
        (options,
         inl (InvalidParameterError ERR_CONN_CREATE_INVALID_OPTIONS
                VUndefined))
    end.

End Constructor.

(** ** Methods *)

Definition isQaMode (c : Config) : JsValue := _qaMode c.

Definition clearCredentials (c : Config) : Config :=
  {| _qaMode := _qaMode c;
     proxy := proxy c;
     warehouse := warehouse c;
     database := database c;
     schema := schema c;
     role := role c;
     streamResult := streamResult c;
     fetchAsString := fetchAsString c;
     clientVersion := clientVersion c;
     clientEnvironment := clientEnvironment c;
     username := username c;
     password := VNull;
     accessUrl := accessUrl c;
     account := account c;
     _mapParameters := _mapParameters c |}.

Definition getProxy (c : Config) : JsValue := proxy c.

(** A method call either throws or returns. *)
Definition outcome : Type := (error + JsValue)%type.

(** [_getParameterValue]: the value of the named parameter, [undefined] for
    a name that the map does not hold.  (A name inherited from
    [Object.prototype] reads as a function, whose [value] property is
    [undefined] as well.)  There is no throwing path. *)
Definition _getParameterValue (c : Config) (parameterName : string)
    : outcome :=
  match own (_mapParameters c) parameterName with
  | Some parameter => inr (value parameter)
  | None => inr VUndefined
  end.

Definition getTimeout (c : Config) : outcome :=
  _getParameterValue c PARAM_TIMEOUT.

Definition getResultPrefetch (c : Config) : outcome :=
  _getParameterValue c PARAM_RESULT_PREFETCH.

Definition getResultStreamInterrupts (c : Config) : outcome :=
  _getParameterValue c PARAM_RESULT_STREAM_INTERRUPTS.

(** ** Notions of the specification *)

(** Credential validation is on for a flag that is true or not given. *)
Definition validationOn (validateCredentials : JsValue) : bool :=
  negb (Util.exists_ validateCredentials) || truthy validateCredentials.

(** What is left of a construction once the options object is dropped: the
    error thrown, or the configuration. *)
Definition result (r : JsValue * (error + Config)) : error + Config := snd r.

(** The error a construction ends with, if any. *)
Definition failure (r : JsValue * (error + Config)) : option error :=
  match snd r with inl e => Some e | inr _ => None end.

(** The account splits at its first dot when that dot is neither the first
    nor the last character. *)
Definition splits (account : string) : bool :=
  let p := indexOf account "." in (0 <? p) && (p <? str_length account - 1).

Definition beforeDot (account : string) : string :=
  substring2 account 0 (indexOf account ".").

Definition afterDot (account : string) : string :=
  substring1 account (indexOf account "." + 1).

(** The subdomain segment of the derived url for a region. *)
Definition subdomain (region : JsValue) : string :=
  match region with
  | VStr r => if String.eqb r "us-west-2" then "" else "." ++ r
  | _ => ""
  end.

(** The derived-url format. *)
Definition derivedUrl (account : string) (region : JsValue) : string :=
  "https://" ++ account ++ subdomain region ++ ".snowflakecomputing.com".

(** The well-formed shape [https://<host>], with a host that is not empty. *)
Definition httpsUrl (s : string) : Prop :=
  exists host, host <> "" /\ s = "https://" ++ host.

(** The resolution as section 4.3 of the specification words it: go through
    the catalog in declaration order and consult the options only under the
    names the catalog declares.  It is compared with the constructor's two
    loops below. *)
Definition resolveFromCatalog (options : object) : ParameterMap :=
  map (fun p =>
         (name p,
          if has options (name p) then
            let supplied := get options (name p) in
            if external p && validate p supplied
            then with_value p supplied
            else with_value p (defaultValue p)
          else with_value p (defaultValue p)))
      createParameters.

(** A field that is absent or passes its type test. *)
Definition absentOr (test : JsValue -> bool) (v : JsValue) : bool :=
  negb (Util.exists_ v) || test v.

(** The proxy fields raise no error: outside node, or both absent, or a
    string host with a number port. *)
Definition proxyFieldsValid (isNode : bool) (o : object) : bool :=
  negb isNode
  || (negb (Util.exists_ (get o "proxyHost"))
      && negb (Util.exists_ (get o "proxyPort")))
  || (Util.isString (get o "proxyHost") && Util.isNumber (get o "proxyPort")).

Definition fetchAsStringValid (isValidValue : JsValue -> bool)
    (v : JsValue) : bool :=
  negb (Util.exists_ v)
  || match v with VArr values => forallb isValidValue values | _ => false end.

Definition clientInfoValid (clientInfo : JsValue) : bool :=
  negb (Util.exists_ clientInfo)
  || (Util.isObject clientInfo
      && Util.isString (get_prop clientInfo "version")
      && Util.isObject (get_prop clientInfo "environment")).

(** The optional fields of the options, and the client information, are
    absent or valid. *)
Definition optionalFieldsValid (isNode : bool)
    (isValidValue : JsValue -> bool) (o : object) (clientInfo : JsValue)
    : bool :=
  proxyFieldsValid isNode o
  && absentOr Util.isString (get o "warehouse")
  && absentOr Util.isString (get o "database")
  && absentOr Util.isString (get o "schema")
  && absentOr Util.isString (get o "role")
  && absentOr Util.isBoolean (get o "streamResult")
  && fetchAsStringValid isValidValue (get o "fetchAsString")
  && clientInfoValid clientInfo.

(** ** Notions used in the proofs *)

(** One round of the second loop when [hasOwnProperty] is the method of
    [Object.prototype], so that no round throws. *)
Definition overrideStepPlain (options : object) (mapParameters : ParameterMap)
    (propertyName : string) : ParameterMap :=
  if has options propertyName && has mapParameters propertyName then
    let propertyValue := get options propertyName in
    match own mapParameters propertyName with
    | Some parameter =>
        if external parameter && validate parameter propertyValue
        then set mapParameters propertyName
               (with_value parameter propertyValue)
        else mapParameters
    | None => mapParameters
    end
  else mapParameters.

(** The second loop when no round throws. *)
Definition overrideParametersPlain (options : object)
    (mapParameters : ParameterMap) : ParameterMap :=
  fold_left (overrideStepPlain options) (keys options) mapParameters.

(** A step that leaves the options object as it found it. *)
Definition stateless {A} (m : M A) : Prop := forall o, fst (m o) = o.

(** The options object after the account has been looked at. *)
Definition afterSplit (o : object) : object :=
  let a := text (get o "account") in
  if splits a
  then set (set o "region" (VStr (afterDot a))) "account" (VStr (beforeDot a))
  else o.

(** The options object after the access url has been derived, when the
    derivation does not fail. *)
Definition afterDerive (o : object) : object :=
  if Util.exists_ (get o "accessUrl") then o
  else
    let url := VStr (derivedUrl (text (get o "account")) (get o "region")) in
    if Util.exists_ (get o "region")
       && String.eqb (text (get o "region")) "us-west-2"
    then set (set o "region" (VStr "")) "accessUrl" url
    else set o "accessUrl" url.

(** The flag as the constructor uses it, after the default has been put in. *)
Definition effectiveFlag (validateCredentials : JsValue) : JsValue :=
  if negb (Util.exists_ validateCredentials) then VBool true
  else validateCredentials.

(** What the second loop has done to the entry [n] of the map once it has
    gone through the names [ks]. *)
Definition resolveEntry (o : object) (ks : list string) (n : string)
    (p : Param) : Param :=
  if existsb (String.eqb n) ks && has o n && external p
     && validate p (get o n)
  then with_value p (get o n)
  else p.

Definition onEntries (f : string -> Param -> Param) (m : ParameterMap)
    : ParameterMap :=
  map (fun e => (fst e, f (fst e) (snd e))) m.

(** The properties of the options that the constructor reads or writes by
    name. *)
Definition optionFields : list string :=
  [ "username"; "password"; "account"; "region"; "accessUrl"; "proxyHost";
    "proxyPort"; "warehouse"; "database"; "schema"; "role"; "streamResult";
    "fetchAsString" ].

(** Two objects with the same properties, in whatever order. *)
Definition sameContent (o1 o2 : object) : Prop :=
  forall k, own o1 k = own o2 k.

(** Two objects with the same properties but for the one named [k]. *)
Definition sameExcept (k : string) (o1 o2 : object) : Prop :=
  forall k', k' <> k -> own o1 k' = own o2 k'.

Definition withParameters (c : Config) (m : ParameterMap) : Config :=
  {| _qaMode := _qaMode c;
     proxy := proxy c;
     warehouse := warehouse c;
     database := database c;
     schema := schema c;
     role := role c;
     streamResult := streamResult c;
     fetchAsString := fetchAsString c;
     clientVersion := clientVersion c;
     clientEnvironment := clientEnvironment c;
     username := username c;
     password := password c;
     accessUrl := accessUrl c;
     account := account c;
     _mapParameters := m |}.

(** Two configurations that agree on everything but the parameters, which
    are related by [RP]. *)
Definition alike (RP : ParameterMap -> ParameterMap -> Prop)
    (c1 c2 : Config) : Prop :=
  withParameters c1 [] = withParameters c2 []
  /\ RP (_mapParameters c1) (_mapParameters c2).

(** Two outcomes of a step: the same error, or results related by [RA]. *)
Definition outcomes {A} (RA : A -> A -> Prop) (r1 r2 : error + A) : Prop :=
  match r1, r2 with
  | inl e1, inl e2 => e1 = e2
  | inr a1, inr a2 => RA a1 a2
  | _, _ => False
  end.

(** Two steps that take options related by [R] to options related by [R],
    with related outcomes. *)
Definition related {A} (R : object -> object -> Prop)
    (RA : A -> A -> Prop) (m1 m2 : M A) : Prop :=
  forall o1 o2, R o1 o2 ->
    R (fst (m1 o1)) (fst (m2 o2)) /\ outcomes RA (snd (m1 o1)) (snd (m2 o2)).

(** ** Sample inputs *)

(** A type-name test that accepts everything, where the set of names does
    not matter. *)
Definition anyTypeName : JsValue -> bool := fun _ => true.

(** Options with the three credentials. *)
Definition credentials (account : string) : object :=
  [("username", VStr "user"); ("password", VStr "secret");
   ("account", VStr account)].

(** The configuration a construction ends with, where one is needed to state
    a fact about it. *)
Definition built (r : JsValue * (error + Config)) (P : Config -> Prop)
    : Prop :=
  match snd r with
  | inr c => P c
  | inl _ => False
  end.



(** The catalog's descriptors of the timeout and of the number of result
    stream interrupts. *)
Definition timeoutParameter : Param :=
  descriptor PARAM_TIMEOUT (inject_Z (90 * 1000)) true
    Util.number.isPositiveInteger.

Definition streamInterruptsParameter : Param :=
  descriptor PARAM_RESULT_STREAM_INTERRUPTS 3 false
    Util.number.isPositiveInteger.

(** Options with an access url and one more property, for constructions
    without credential validation. *)
Definition urlAnd (k : string) (v : JsValue) : object :=
  [("accessUrl", VStr "https://abc.snowflakecomputing.com"); (k, v)].

(** ** The remaining accessors

    The closures of lines 219-317 return the constructor's locals; the
    prototype methods of lines 494-537 read the parameter map. *)

Definition getWarehouse (c : Config) : JsValue := warehouse c.

Definition getDatabase (c : Config) : JsValue := database c.

Definition getSchema (c : Config) : JsValue := schema c.

Definition getRole (c : Config) : JsValue := role c.

Definition getStreamResult (c : Config) : JsValue := streamResult c.

Definition getFetchAsString (c : Config) : JsValue := fetchAsString c.

Definition getClientType (c : Config) : JsValue := VStr "JavaScript".

Definition getClientVersion (c : Config) : JsValue := clientVersion c.

Definition getClientEnvironment (c : Config) : JsValue := clientEnvironment c.

Definition getResultChunkCacheSize (c : Config) : outcome :=
  _getParameterValue c PARAM_RESULT_CHUNK_CACHE_SIZE.

Definition getResultProcessingBatchSize (c : Config) : outcome :=
  _getParameterValue c PARAM_RESULT_PROCESSING_BATCH_SIZE.

Definition getResultProcessingBatchDuration (c : Config) : outcome :=
  _getParameterValue c PARAM_RESULT_PROCESSING_BATCH_DURATION.

Definition getRowStreamHighWaterMark (c : Config) : outcome :=
  _getParameterValue c PARAM_ROW_STREAM_HIGH_WATER_MARK.

Definition getRetryLargeResultSetMaxNumRetries (c : Config) : outcome :=
  _getParameterValue c PARAM_RETRY_LARGE_RESULT_SET_MAX_NUM_RETRIES.

Definition getRetryLargeResultSetMaxSleepTime (c : Config) : outcome :=
  _getParameterValue c PARAM_RETRY_LARGE_RESULT_SET_MAX_SLEEP_TIME.

Definition getRetrySfMaxNumRetries (c : Config) : outcome :=
  _getParameterValue c PARAM_RETRY_SF_MAX_NUM_RETRIES.

Definition getRetrySfStartingSleepTime (c : Config) : outcome :=
  _getParameterValue c PARAM_RETRY_SF_STARTING_SLEEP_TIME.

Definition getRetrySfMaxSleepTime (c : Config) : outcome :=
  _getParameterValue c PARAM_RETRY_SF_MAX_SLEEP_TIME.

(** ** Outcomes of the stages, for the further properties *)

(** A field that is there and fails its type test. *)
Definition invalid (test : JsValue -> bool) (v : JsValue) : bool :=
  Util.exists_ v && negb (test v).

(** The region as the derivation would reject it: there, and not a
    string. *)
Definition regionRejected (o : object) : bool :=
  negb (Util.exists_ (get o "accessUrl")) && invalid Util.isString (get o "region").

(** The identity stage lets the options through: with validation on, the
    three credentials are strings, a supplied access url is a string, and
    without one the region, unless the account brings its own, is absent or
    a string; with validation off, the access url is a string. *)
Definition identityValid (validateCredentials : JsValue) (o : object)
    : bool :=
  if validationOn validateCredentials then
    Util.isString (get o "username")
    && Util.isString (get o "password")
    && Util.isString (get o "account")
    && (if Util.exists_ (get o "accessUrl")
        then Util.isString (get o "accessUrl")
        else splits (text (get o "account"))
             || negb (invalid Util.isString (get o "region")))
  else Util.isString (get o "accessUrl").

(** What the proxy step ends with. *)
Definition proxyOutcome (isNode : bool) (o : object) : error + JsValue :=
  let proxyHost := get o "proxyHost" in
  let proxyPort := get o "proxyPort" in
  if isNode && (Util.exists_ proxyHost || Util.exists_ proxyPort) then
    if negb (Util.exists_ proxyHost) then
      inl (MissingParameterError ERR_CONN_CREATE_MISSING_PROXY_HOST)
    else if negb (Util.isString proxyHost) then
      inl (InvalidParameterError ERR_CONN_CREATE_INVALID_PROXY_HOST
             VUndefined)
    else if negb (Util.exists_ proxyPort) then
      inl (MissingParameterError ERR_CONN_CREATE_MISSING_PROXY_PORT)
    else if negb (Util.isNumber proxyPort) then
      inl (InvalidParameterError ERR_CONN_CREATE_INVALID_PROXY_PORT
             VUndefined)
    else inr (VObj [("host", proxyHost); ("port", proxyPort)])
  else inr VUndefined.

(** What the second stage ends with on the options [o]: the first check
    that fails, in the order of the code, or the configuration. *)
Definition configureOutcome (isNode : bool)
    (isValidValue : JsValue -> bool) (qaMode clientInfo : JsValue)
    (o : object) : error + Config :=
  let fetch := get o "fetchAsString" in
  match proxyOutcome isNode o with
  | inl e => inl e
  | inr settings =>
      if invalid Util.isString (get o "warehouse") then
        inl (InvalidParameterError ERR_CONN_CREATE_INVALID_WAREHOUSE
               VUndefined)
      else if invalid Util.isString (get o "database") then
        inl (InvalidParameterError ERR_CONN_CREATE_INVALID_DATABASE
               VUndefined)
      else if invalid Util.isString (get o "schema") then
        inl (InvalidParameterError ERR_CONN_CREATE_INVALID_SCHEMA VUndefined)
      else if invalid Util.isString (get o "role") then
        inl (InvalidParameterError ERR_CONN_CREATE_INVALID_ROLE VUndefined)
      else if invalid Util.isBoolean (get o "streamResult") then
        inl (InvalidParameterError ERR_CONN_CREATE_INVALID_STREAM_RESULT
               VUndefined)
      else if invalid Util.isArray fetch then
        inl (InvalidParameterError ERR_CONN_CREATE_INVALID_FETCH_AS_STRING
               VUndefined)
      else if Util.exists_ fetch
              && negb (findInvalidValue isValidValue fetch =? -1) then
        inl (InvalidParameterError
               ERR_CONN_CREATE_INVALID_FETCH_AS_STRING_VALUES
               (element fetch (findInvalidValue isValidValue fetch)))
      else if negb (clientInfoValid clientInfo) then inl InternalAssertError
      else if has o "hasOwnProperty" then inl TypeError
      else
        inr {| _qaMode := qaMode;
               proxy := settings;
               warehouse := get o "warehouse";
               database := get o "database";
               schema := get o "schema";
               role := get o "role";
               streamResult := get o "streamResult";
               fetchAsString := fetch;
               clientVersion :=
                 if Util.exists_ clientInfo
                 then get_prop clientInfo "version" else VUndefined;
               clientEnvironment :=
                 if Util.exists_ clientInfo
                 then get_prop clientInfo "environment" else VUndefined;
               username := get o "username";
               password := get o "password";
               accessUrl := get o "accessUrl";
               account := get o "account";
               _mapParameters :=
                 overrideParametersPlain o (initParameters createParameters) |}
  end.

(** The options that the second stage reads by name. *)
Definition configureFields : list string :=
  [ "proxyHost"; "proxyPort"; "warehouse"; "database"; "schema"; "role";
    "streamResult"; "fetchAsString"; "username"; "password"; "accessUrl";
    "account" ].

(** Two objects that the second stage cannot tell apart: the same values
    under the names it reads and under the names of the catalog, and a
    property named hasOwnProperty in both or in neither. *)
Definition sameForConfigure (o1 o2 : object) : Prop :=
  (forall f, In f configureFields -> get o1 f = get o2 f)
  /\ (forall p, In p createParameters -> own o1 (name p) = own o2 (name p))
  /\ has o1 "hasOwnProperty" = has o2 "hasOwnProperty".

(** The error in the outcome of a step, if there is one. *)
Definition thrown {A} (r : error + A) : option error :=
  match r with inl e => Some e | inr _ => None end.

(** The options that the checks of the second stage read. *)
Definition checkedFields : list string :=
  [ "proxyHost"; "proxyPort"; "warehouse"; "database"; "schema"; "role";
    "streamResult"; "fetchAsString" ].

(** * Properties *)

(** ** Property lists *)

Section PropertyListFacts.

Context {A : Type}.
Implicit Types (o : list (string * A)) (k : string).

Lemma own_set o k v k' :
  own (set o k v) k' = if String.eqb k' k then Some v else own o k'.
Proof.
  induction o as [|[k0 v0] o IH]; simpl.
  - reflexivity.
  - destruct (String.eqb k k0) eqn:Ek; simpl.
    + apply String.eqb_eq in Ek; subst k0.
      destruct (String.eqb k' k); reflexivity.
    + rewrite IH. destruct (String.eqb k' k0) eqn:E0; [|reflexivity].
      apply String.eqb_eq in E0; subst k0.
      destruct (String.eqb k' k) eqn:E1; [|reflexivity].
      apply String.eqb_eq in E1; subst k'.
      rewrite String.eqb_refl in Ek; discriminate.
Qed.

Lemma set_set_present o k v k' v' :
  has o k = true -> k <> k' ->
  set (set o k v) k' v' = set (set o k' v') k v.
Proof.
  unfold has. intros H Hne.
  induction o as [|[k0 v0] o IH]; simpl in *; [discriminate|].
  destruct (String.eqb k k0) eqn:Ek; simpl.
  - apply String.eqb_eq in Ek; subst k0.
    destruct (String.eqb k' k) eqn:E'; simpl.
    + apply String.eqb_eq in E'; congruence.
    + now rewrite String.eqb_refl.
  - destruct (String.eqb k' k0) eqn:E'; simpl; rewrite Ek.
    + reflexivity.
    + now rewrite IH.
Qed.

Lemma has_mem_keys o k : has o k = existsb (String.eqb k) (keys o).
Proof.
  unfold has, keys.
  induction o as [|[k0 v0] o IH]; simpl; [reflexivity|].
  destruct (String.eqb k k0); simpl; [reflexivity | exact IH].
Qed.

Lemma own_not_in o k : ~ In k (keys o) -> own o k = None.
Proof.
  unfold keys.
  induction o as [|[k0 v0] o IH]; simpl; intros H; [reflexivity|].
  destruct (String.eqb k k0) eqn:E.
  - apply String.eqb_eq in E. exfalso. apply H. now left.
  - apply IH. intros Hin. apply H. now right.
Qed.

(** In an object, the order of the properties does not affect a lookup. *)
Lemma own_permutation o o' k :
  NoDup (keys o) -> Permutation o o' -> own o k = own o' k.
Proof.
  intros Hnd Hp. revert Hnd.
  induction Hp as [|[k0 v0] l l' Hp IH|[k1 v1] [k2 v2] l|l l' l'' H1 IH1 H2 IH2];
    intros Hnd.
  - reflexivity.
  - simpl. inversion Hnd; subst. now rewrite IH.
  - simpl. destruct (String.eqb k k2) eqn:E2, (String.eqb k k1) eqn:E1;
      try reflexivity.
    apply String.eqb_eq in E1, E2. subst.
    unfold keys in Hnd; simpl in Hnd.
    inversion Hnd as [|? ? Hn _]; subst. exfalso. apply Hn. now left.
  - rewrite IH1 by assumption. apply IH2.
    unfold keys in *. eapply Permutation_NoDup; [|exact Hnd].
    now apply Permutation_map.
Qed.

End PropertyListFacts.

Lemma get_set (o : object) k v k' :
  get (set o k v) k' = if String.eqb k' k then v else get o k'.
Proof.
  unfold get. rewrite own_set. destruct (String.eqb k' k); reflexivity.
Qed.

Lemma get_set_same (o : object) k v : get (set o k v) k = v.
Proof. rewrite get_set. now rewrite String.eqb_refl. Qed.

Lemma exists_has (o : object) k : Util.exists_ (get o k) = true -> has o k = true.
Proof.
  unfold get, has. destruct (own o k); [reflexivity | discriminate].
Qed.

(** ** Strings *)

Lemma indexOf_bounds s c : -1 <= indexOf s c < str_length s.
Proof.
  unfold str_length.
  induction s as [|a s IH]; simpl String.length; simpl indexOf.
  - lia.
  - destruct (Ascii.eqb a c); [lia|].
    destruct (indexOf s c <? 0) eqn:E; [lia|].
    apply Z.ltb_ge in E. lia.
Qed.

Lemma indexOf_prefix s c :
  0 <= indexOf s c ->
  indexOf (String.substring 0 (Z.to_nat (indexOf s c)) s) c = -1.
Proof.
  induction s as [|a s IH]; simpl; [lia|].
  destruct (Ascii.eqb a c) eqn:Ea; [reflexivity|].
  destruct (indexOf s c <? 0) eqn:E; [lia|].
  apply Z.ltb_ge in E. intros _.
  replace (Z.to_nat (indexOf s c + 1)) with (S (Z.to_nat (indexOf s c)))
    by lia.
  simpl. rewrite Ea, (IH E). reflexivity.
Qed.

Lemma beforeDot_prefix a :
  splits a = true ->
  beforeDot a = String.substring 0 (Z.to_nat (indexOf a ".")) a.
Proof.
  unfold splits, beforeDot, substring2, clamp.
  intros H. apply andb_prop in H as [H1 H2].
  apply Z.ltb_lt in H1, H2.
  pose proof (indexOf_bounds a ".") as Hb.
  set (p := indexOf a ".") in *. set (n := str_length a) in *.
  replace (Z.max 0 (Z.min 0 n)) with 0 by lia.
  replace (Z.max 0 (Z.min p n)) with p by lia.
  replace (Z.min 0 p) with 0 by lia.
  replace (Z.max 0 p - 0) with p by lia.
  reflexivity.
Qed.

(** The part before the first dot holds no dot, so it does not split again. *)
Lemma splits_beforeDot a : splits a = true -> splits (beforeDot a) = false.
Proof.
  intros H. rewrite (beforeDot_prefix a H).
  unfold splits in *. apply andb_prop in H as [H1 _].
  apply Z.ltb_lt in H1.
  rewrite indexOf_prefix by lia. reflexivity.
Qed.

(** ** Running the constructor steps *)

Section Steps.

Context {A B : Type}.

Lemma bind_ok (m : M A) (f : A -> M B) o o' a :
  m o = (o', inr a) -> bind m f o = f a o'.
Proof. unfold bind. now intros ->. Qed.

Lemma bind_fail (m : M A) (f : A -> M B) o o' e :
  m o = (o', inl e) -> bind m f o = (o', inl e).
Proof. unfold bind. now intros ->. Qed.

Lemma bind_inv_ok (m : M A) (f : A -> M B) o o' b :
  bind m f o = (o', inr b) ->
  exists o1 a, m o = (o1, inr a) /\ f a o1 = (o', inr b).
Proof.
  unfold bind. destruct (m o) as [o1 [e|a]]; intros H.
  - discriminate.
  - now exists o1, a.
Qed.

End Steps.

Lemma stateless_inv {A} (m : M A) o o' r :
  stateless m -> m o = (o', r) -> o' = o.
Proof. intros H E. specialize (H o). rewrite E in H. exact H. Qed.

Lemma stateless_ret {A} (a : A) : stateless (ret a).
Proof. intros o; reflexivity. Qed.

Lemma stateless_throw {A} e : stateless (@throw A e).
Proof. intros o; reflexivity. Qed.

Lemma stateless_read k : stateless (read k).
Proof. intros o; reflexivity. Qed.

Lemma stateless_snapshot : stateless snapshot.
Proof. intros o; reflexivity. Qed.

Lemma stateless_lift {A} (r : error + A) : stateless (lift r).
Proof. intros o; reflexivity. Qed.

Lemma stateless_bind {A B} (m : M A) (f : A -> M B) :
  stateless m -> (forall a, stateless (f a)) -> stateless (bind m f).
Proof.
  intros Hm Hf o. unfold bind.
  specialize (Hm o). destruct (m o) as [o1 [e|a]]; simpl in *; subst o1.
  - reflexivity.
  - apply Hf.
Qed.

Lemma stateless_if {A} (b : bool) (m1 m2 : M A) :
  stateless m1 -> stateless m2 -> stateless (if b then m1 else m2).
Proof. now destruct b. Qed.

Lemma stateless_checkArgumentExists b code :
  stateless (Errors.checkArgumentExists b code).
Proof. destruct b; intros o; reflexivity. Qed.

Lemma stateless_checkArgumentValid b code d :
  stateless (Errors.checkArgumentValid b code d).
Proof. destruct b; intros o; reflexivity. Qed.

Lemma stateless_assertInternal b : stateless (Errors.assertInternal b).
Proof. destruct b; intros o; reflexivity. Qed.

Create HintDb steps.

#[local] Hint Resolve stateless_ret stateless_throw stateless_read
  stateless_snapshot stateless_lift stateless_checkArgumentExists
  stateless_checkArgumentValid stateless_assertInternal : steps.

Ltac stateless_tac :=
  repeat first
    [ apply stateless_bind; [|intros ?]
    | apply stateless_if
    | solve [auto with steps] ].

Lemma stateless_checkCredentials : stateless checkCredentials.
Proof. unfold checkCredentials. stateless_tac. Qed.

Lemma stateless_checkAccessUrl : stateless checkAccessUrl.
Proof. unfold checkAccessUrl. stateless_tac. Qed.

Lemma stateless_resolveProxy isNode : stateless (resolveProxy isNode).
Proof. unfold resolveProxy. stateless_tac. Qed.

Lemma stateless_checkOptional v test code :
  stateless (checkOptional v test code).
Proof. unfold checkOptional. stateless_tac. Qed.

Lemma stateless_checkFetchAsString isValidValue v :
  stateless (checkFetchAsString isValidValue v).
Proof. unfold checkFetchAsString. stateless_tac. Qed.

Lemma stateless_checkClientInfo ci : stateless (checkClientInfo ci).
Proof. unfold checkClientInfo. stateless_tac. Qed.

#[local] Hint Resolve stateless_checkCredentials stateless_checkAccessUrl
  stateless_resolveProxy stateless_checkOptional
  stateless_checkFetchAsString stateless_checkClientInfo : steps.

Lemma stateless_configure isNode isValidValue qa ci :
  stateless (configure isNode isValidValue qa ci).
Proof. unfold configure. stateless_tac. Qed.

(** ** The identity stage, step by step *)

Ltac run_steps :=
  unfold bind, read, write, ret, throw, Errors.checkArgumentExists,
    Errors.checkArgumentValid, Errors.assertInternal; simpl.

(** Case analysis on the value of a property, carried to its later reads. *)
Ltac case_get o k :=
  let E := fresh "E" in
  destruct (get o k) eqn:E; repeat (progress (simpl; rewrite ?E)).

(** The outcome of the credential checks, in the order the code makes
    them. *)
Lemma checkCredentials_run o :
  checkCredentials o =
  (o,
   if negb (Util.exists_ (get o "username")) then
     inl (MissingParameterError ERR_CONN_CREATE_MISSING_USERNAME)
   else if negb (Util.isString (get o "username")) then
     inl (InvalidParameterError ERR_CONN_CREATE_INVALID_USERNAME VUndefined)
   else if negb (Util.exists_ (get o "password")) then
     inl (MissingParameterError ERR_CONN_CREATE_MISSING_PASSWORD)
   else if negb (Util.isString (get o "password")) then
     inl (InvalidParameterError ERR_CONN_CREATE_INVALID_PASSWORD VUndefined)
   else if negb (Util.exists_ (get o "account")) then
     inl (MissingParameterError ERR_CONN_CREATE_MISSING_ACCOUNT)
   else if negb (Util.isString (get o "account")) then
     inl (InvalidParameterError ERR_CONN_CREATE_INVALID_ACCOUNT VUndefined)
   else inr tt).
Proof.
  unfold checkCredentials. run_steps.
  case_get o "username"; try reflexivity.
  case_get o "password"; try reflexivity.
  case_get o "account"; reflexivity.
Qed.

Lemma checkCredentials_inv o o' :
  checkCredentials o = (o', inr tt) ->
  o' = o /\ Util.isString (get o "username") = true
  /\ Util.isString (get o "password") = true
  /\ Util.isString (get o "account") = true.
Proof.
  rewrite checkCredentials_run.
  destruct (Util.exists_ (get o "username")); simpl; [|discriminate].
  destruct (Util.isString (get o "username")); simpl; [|discriminate].
  destruct (Util.exists_ (get o "password")); simpl; [|discriminate].
  destruct (Util.isString (get o "password")); simpl; [|discriminate].
  destruct (Util.exists_ (get o "account")); simpl; [|discriminate].
  destruct (Util.isString (get o "account")); simpl; [|discriminate].
  intros H; inversion H; auto.
Qed.

Lemma splitAccount_run o : splitAccount o = (afterSplit o, inr tt).
Proof.
  unfold splitAccount, afterSplit, splits, afterDot, beforeDot. run_steps.
  destruct ((0 <? indexOf (text (get o "account")) ".")
            && (indexOf (text (get o "account")) "."
                <? str_length (text (get o "account")) - 1));
    simpl; [|reflexivity].
  rewrite get_set. reflexivity.
Qed.

Lemma deriveAccessUrl_run o :
  deriveAccessUrl o =
  if negb (Util.exists_ (get o "accessUrl"))
     && Util.exists_ (get o "region")
     && negb (Util.isString (get o "region"))
  then (o, inl (InvalidParameterError ERR_CONN_CREATE_INVALID_REGION
                  VUndefined))
  else (afterDerive o, inr tt).
Proof.
  unfold deriveAccessUrl, afterDerive, derivedUrl, subdomain,
    Util.format_access_url.
  run_steps.
  destruct (Util.exists_ (get o "accessUrl")); simpl; [reflexivity|].
  destruct (get o "region") as [| |b|q|r|l|l] eqn:Er;
    repeat (progress (simpl; rewrite ?Er)); try reflexivity.
  destruct (String.eqb r "us-west-2") eqn:E;
    repeat (progress (simpl; rewrite ?Er, ?get_set)); reflexivity.
Qed.

Lemma checkAccessUrl_run o :
  checkAccessUrl o =
  (o,
   if negb (Util.exists_ (get o "accessUrl")) then
     inl (MissingParameterError ERR_CONN_CREATE_MISSING_ACCESS_URL)
   else if negb (Util.isString (get o "accessUrl")) then
     inl (InvalidParameterError ERR_CONN_CREATE_INVALID_ACCESS_URL VUndefined)
   else inr tt).
Proof.
  unfold checkAccessUrl. run_steps.
  case_get o "accessUrl"; reflexivity.
Qed.

Lemma truthy_effectiveFlag vc : truthy (effectiveFlag vc) = validationOn vc.
Proof. destruct vc; reflexivity. Qed.

Lemma validateIdentity_off vc o :
  truthy vc = false -> validateIdentity vc o = checkAccessUrl o.
Proof. unfold validateIdentity. intros ->. reflexivity. Qed.

Lemma validateIdentity_on vc o :
  truthy vc = true ->
  validateIdentity vc o =
  match snd (checkCredentials o) with
  | inl e => (o, inl e)
  | inr _ =>
      match deriveAccessUrl (afterSplit o) with
      | (o1, inl e) => (o1, inl e)
      | (o1, inr _) => checkAccessUrl o1
      end
  end.
Proof.
  unfold validateIdentity. intros ->. unfold bind at 1 2 3.
  pose proof (stateless_checkCredentials o) as Hs.
  destruct (checkCredentials o) as [o0 [e|[]]]; simpl in *; subst o0.
  - reflexivity.
  - rewrite splitAccount_run. destruct (deriveAccessUrl (afterSplit o)) as [o1 [e|[]]]; reflexivity.
Qed.

(** A successful identity stage, read backwards. *)
Lemma validateIdentity_inv vc o o1 :
  validateIdentity vc o = (o1, inr tt) ->
  Util.isString (get o1 "accessUrl") = true
  /\ ((truthy vc = false /\ o1 = o)
      \/ (truthy vc = true
          /\ Util.isString (get o "username") = true
          /\ Util.isString (get o "password") = true
          /\ Util.isString (get o "account") = true
          /\ o1 = afterDerive (afterSplit o))).
Proof.
  destruct (truthy vc) eqn:Ev.
  - rewrite (validateIdentity_on _ _ Ev).
    destruct (checkCredentials o) as [o0 [e|[]]] eqn:Ec; simpl;
      [discriminate|].
    apply checkCredentials_inv in Ec as (-> & Hu & Hp & Ha).
    rewrite deriveAccessUrl_run.
    destruct (negb (Util.exists_ (get (afterSplit o) "accessUrl"))
              && Util.exists_ (get (afterSplit o) "region")
              && negb (Util.isString (get (afterSplit o) "region")));
      [discriminate|].
    rewrite checkAccessUrl_run. intros H.
    destruct (get (afterDerive (afterSplit o)) "accessUrl") eqn:Eu;
      simpl in H; try discriminate.
    inversion H; subst o1. rewrite Eu. split; [reflexivity|].
    right. auto.
  - rewrite (validateIdentity_off _ _ Ev), checkAccessUrl_run. intros H.
    destruct (get o "accessUrl") eqn:Eu; simpl in H; try discriminate.
    inversion H; subst o1. rewrite Eu. split; [reflexivity|]. left. auto.
Qed.

(** ** The configuration stage *)

Section Configure.

Variable isNode : bool.
Variable isValidValue : JsValue -> bool.

(** What a successful run of the second stage stores. *)
Lemma configure_inv qa ci o o' c :
  configure isNode isValidValue qa ci o = (o', inr c) ->
  o' = o
  /\ _qaMode c = qa
  /\ resolveProxy isNode o = (o, inr (proxy c))
  /\ username c = get o "username"
  /\ password c = get o "password"
  /\ accessUrl c = get o "accessUrl"
  /\ account c = get o "account"
  /\ overrideParameters o (initParameters createParameters)
     = inr (_mapParameters c).
Proof.
  intros H.
  assert (o' = o) as ->
    by (eapply stateless_inv; [apply stateless_configure | exact H]).
  split; [reflexivity|].
  unfold configure in H.
  apply bind_inv_ok in H as (o1 & p & Hp & H).
  assert (o1 = o) as ->
    by (eapply stateless_inv; [apply stateless_resolveProxy | exact Hp]).
  repeat
    (apply bind_inv_ok in H as (?o & ?a & ?E & H);
     match goal with
     | E : ?m o = (?x, inr _) |- _ =>
         assert (x = o)
           by (eapply stateless_inv; [| exact E]; auto with steps);
         subst x
     end).
  unfold read, snapshot, lift in *; simpl in *.
  repeat match goal with
         | E : (_, _) = (_, inr _) |- _ => inversion E; clear E
         end.
  subst. unfold ret in H. inversion H; subst; simpl.
  repeat split; try reflexivity; assumption.
Qed.

Lemma construct_inv vc qa ci o o' c :
  construct isNode isValidValue vc qa ci o = (o', inr c) ->
  validateIdentity vc o = (o', inr tt)
  /\ configure isNode isValidValue qa ci o' = (o', inr c).
Proof.
  unfold construct. intros H.
  apply bind_inv_ok in H as (o1 & [] & H1 & H2).
  pose proof (stateless_inv _ _ _ _ (stateless_configure _ _ _ _) H2).
  subst o1. auto.
Qed.

Lemma ConnectionConfig_object o vc qa ci :
  ConnectionConfig isNode isValidValue (VObj o) vc qa ci =
  (VObj (fst (construct isNode isValidValue (effectiveFlag vc) qa ci o)),
   snd (construct isNode isValidValue (effectiveFlag vc) qa ci o)).
Proof.
  unfold ConnectionConfig, effectiveFlag. simpl.
  destruct (construct _ _ _ _ _ o). reflexivity.
Qed.

Lemma ConnectionConfig_inv o vc qa ci r c :
  ConnectionConfig isNode isValidValue (VObj o) vc qa ci = (r, inr c) ->
  exists o', r = VObj o'
    /\ validateIdentity (effectiveFlag vc) o = (o', inr tt)
    /\ configure isNode isValidValue qa ci o' = (o', inr c).
Proof.
  rewrite ConnectionConfig_object.
  destruct (construct _ _ _ _ _ o) as [o' res] eqn:E; simpl.
  intros H; inversion H; subst. exists o'. split; [reflexivity|].
  now apply construct_inv.
Qed.

End Configure.

(** ** The two parameter loops against the catalog *)

Lemma keys_onEntries f m : keys (onEntries f m) = keys m.
Proof.
  unfold keys, onEntries. rewrite map_map. apply map_ext. reflexivity.
Qed.

Lemma onEntries_id f (m : ParameterMap) :
  (forall n p, In (n, p) m -> f n p = p) -> onEntries f m = m.
Proof.
  unfold onEntries. intros H.
  induction m as [|[n p] m IH]; simpl; [reflexivity|].
  rewrite H by now left. f_equal. apply IH.
  intros n' p' Hin. apply H. now right.
Qed.

Lemma set_onEntries (m : ParameterMap) k p (f : Param -> Param) :
  NoDup (keys m) -> own m k = Some p ->
  set m k (f p)
  = onEntries (fun n q => if String.eqb n k then f q else q) m.
Proof.
  unfold keys. induction m as [|[k0 q0] m IH]; simpl; [discriminate|].
  intros Hnd Hown. inversion Hnd as [|? ? Hnotin Hnd']; subst.
  destruct (String.eqb k k0) eqn:E.
  - apply String.eqb_eq in E; subst k0. inversion Hown; subst q0.
    rewrite String.eqb_refl. f_equal.
    symmetry. apply onEntries_id. intros n q Hin.
    destruct (String.eqb n k) eqn:En; [|reflexivity].
    apply String.eqb_eq in En; subst n.
    exfalso. apply Hnotin. apply (in_map fst) in Hin. exact Hin.
  - rewrite String.eqb_sym, E. f_equal. now apply IH.
Qed.

Lemma own_unique {A} (m : list (string * A)) k p q :
  NoDup (keys m) -> own m k = Some p -> In (k, q) m -> q = p.
Proof.
  unfold keys. induction m as [|[k0 q0] m IH]; simpl; [easy|].
  intros Hnd Hown Hin. inversion Hnd as [|? ? Hnotin Hnd']; subst.
  destruct (String.eqb k k0) eqn:E.
  - apply String.eqb_eq in E; subst k0.
    destruct Hin as [Hin|Hin]; [congruence|].
    exfalso. apply Hnotin. apply (in_map fst) in Hin. exact Hin.
  - destruct Hin as [Hin|Hin]; [|now apply IH].
    inversion Hin; subst. rewrite String.eqb_refl in E. discriminate.
Qed.

Lemma own_none_not_in {A} (m : list (string * A)) k q :
  own m k = None -> ~ In (k, q) m.
Proof.
  induction m as [|[k0 q0] m IH]; simpl; [easy|].
  destruct (String.eqb k k0) eqn:E; [discriminate|].
  intros Hown [Hin|Hin]; [|now apply IH].
  inversion Hin; subst. rewrite String.eqb_refl in E. discriminate.
Qed.

Lemma resolveEntry_single o k n p :
  resolveEntry o [k] n p =
  if String.eqb n k && (has o k && external p && validate p (get o k))
  then with_value p (get o k) else p.
Proof.
  unfold resolveEntry; simpl. rewrite orb_false_r.
  destruct (String.eqb n k) eqn:E; [|reflexivity].
  apply String.eqb_eq in E; subst n. simpl.
  rewrite <- !andb_assoc. reflexivity.
Qed.

Lemma overrideStepPlain_onEntries o (m : ParameterMap) k :
  NoDup (keys m) ->
  overrideStepPlain o m k = onEntries (resolveEntry o [k]) m.
Proof.
  intros Hnd. unfold overrideStepPlain, has at 2.
  destruct (own m k) as [p|] eqn:Eown.
  - rewrite andb_true_r. cbv beta iota zeta.
    assert (has o k && external p && validate p (get o k) = false ->
            m = onEntries (resolveEntry o [k]) m) as Hsame.
    { intros Ec. symmetry. apply onEntries_id. intros n q Hin.
      rewrite resolveEntry_single.
      destruct (String.eqb n k) eqn:En; [|reflexivity].
      apply String.eqb_eq in En; subst n.
      rewrite (own_unique m k p q Hnd Eown Hin), Ec. reflexivity. }
    destruct (has o k) eqn:Eh; [|now apply Hsame].
    destruct (external p && validate p (get o k)) eqn:Ec;
      [|now apply Hsame].
    rewrite (set_onEntries m k p (fun q => with_value q (get o k)))
      by assumption.
    unfold onEntries. apply map_ext_in. intros [n q] Hin; simpl.
    rewrite resolveEntry_single.
    destruct (String.eqb n k) eqn:En; [|reflexivity].
    apply String.eqb_eq in En; subst n.
    rewrite (own_unique m k p q Hnd Eown Hin), Eh.
    cbn [andb]. rewrite Ec. reflexivity.
  - rewrite andb_false_r. cbv beta iota zeta.
    symmetry. apply onEntries_id. intros n q Hin.
    rewrite resolveEntry_single.
    destruct (String.eqb n k) eqn:En; [|reflexivity].
    apply String.eqb_eq in En; subst n.
    now apply own_none_not_in in Hin.
Qed.

Lemma resolveEntry_cons o k ks n p :
  resolveEntry o ks n (resolveEntry o [k] n p) = resolveEntry o (k :: ks) n p.
Proof.
  rewrite resolveEntry_single. unfold resolveEntry; simpl.
  destruct (String.eqb n k) eqn:E; simpl.
  - apply String.eqb_eq in E; subst n.
    destruct (has o k); simpl;
      [|now rewrite !andb_false_r].
    rewrite !andb_true_r.
    destruct (external p) eqn:Ee; simpl; [|now rewrite Ee, !andb_false_r].
    destruct (validate p (get o k)) eqn:Ev; simpl.
    + rewrite Ee, Ev, !andb_true_r.
      destruct (existsb (String.eqb k) ks); reflexivity.
    + rewrite Ee, Ev, !andb_false_r. reflexivity.
  - reflexivity.
Qed.

(** The second loop when no round throws, whatever the names it goes
    through and in whatever order, overrides exactly the entries whose name
    is among them. *)
Lemma override_onEntries o ks (m : ParameterMap) :
  NoDup (keys m) ->
  fold_left (overrideStepPlain o) ks m = onEntries (resolveEntry o ks) m.
Proof.
  revert m. induction ks as [|k ks IH]; intros m Hnd; simpl.
  - symmetry. apply onEntries_id. intros n p _.
    unfold resolveEntry. reflexivity.
  - rewrite overrideStepPlain_onEntries by assumption.
    rewrite IH by (now rewrite keys_onEntries).
    unfold onEntries. rewrite map_map. apply map_ext. intros [n p]; simpl.
    now rewrite resolveEntry_cons.
Qed.

Lemma initParameters_catalog :
  initParameters createParameters
  = map (fun p => (name p, with_value p (defaultValue p))) createParameters.
Proof. reflexivity. Qed.

Lemma catalog_names_distinct : NoDup (map name createParameters).
Proof.
  repeat (constructor; [simpl; intuition discriminate|]). constructor.
Qed.

Lemma initParameters_keys :
  keys (initParameters createParameters) = map name createParameters.
Proof. reflexivity. Qed.

(** When no round throws, the constructor's two loops compute what the
    catalog-driven resolution of the specification computes. *)
Lemma overrideParametersPlain_catalog o :
  overrideParametersPlain o (initParameters createParameters)
  = resolveFromCatalog o.
Proof.
  unfold overrideParametersPlain.
  rewrite override_onEntries
    by (rewrite initParameters_keys; apply catalog_names_distinct).
  rewrite initParameters_catalog. unfold onEntries, resolveFromCatalog.
  rewrite map_map. apply map_ext. intros p; simpl.
  unfold resolveEntry. rewrite <- has_mem_keys.
  destruct (has o (name p)); simpl; [|reflexivity].
  destruct (external p && validate p (get o (name p))); reflexivity.
Qed.

Lemma overrideStep_unshadowed o m k :
  has o "hasOwnProperty" = false ->
  overrideStep o m k = inr (overrideStepPlain o m k).
Proof.
  intros Hno. unfold overrideStep, overrideStepPlain, callHasOwnProperty.
  rewrite Hno.
  destruct (has o k && has m k); [|reflexivity].
  destruct (own m k) as [parameter|]; [|reflexivity].
  destruct (external parameter && validate parameter (get o k));
    reflexivity.
Qed.

(** The second loop throws a TypeError when the options hold a property
    named hasOwnProperty, in its first round, and otherwise runs through
    without throwing. *)
Lemma overrideParameters_run o m :
  overrideParameters o m
  = if has o "hasOwnProperty" then inl TypeError
    else inr (overrideParametersPlain o m).
Proof.
  unfold overrideParameters, overrideParametersPlain.
  destruct (has o "hasOwnProperty") eqn:Eh.
  - assert (forall ks,
               fold_left
                 (fun state k =>
                    match state with
                    | inl e => inl e
                    | inr map => overrideStep o map k
                    end) ks (inl TypeError)
               = inl TypeError) as Hstuck
      by (induction ks as [|k ks IH]; [reflexivity | exact IH]).
    destruct o as [|[k0 v0] o]; [discriminate|].
    cbn [keys map fst fold_left].
    unfold overrideStep at 2, callHasOwnProperty. rewrite Eh.
    apply Hstuck.
  - generalize (keys o). intros ks. revert m.
    induction ks as [|k ks IH]; intros m; [reflexivity|].
    cbn [fold_left]. rewrite (overrideStep_unshadowed o m k Eh). apply IH.
Qed.

(** The resolution looks at the options under the catalog's names only. *)
Lemma resolveFromCatalog_ext o o' :
  (forall p, In p createParameters -> own o (name p) = own o' (name p)) ->
  resolveFromCatalog o = resolveFromCatalog o'.
Proof.
  intros H. unfold resolveFromCatalog. apply map_ext_in. intros p Hin.
  unfold has, get. rewrite (H p Hin). reflexivity.
Qed.

(** ** What the identity stage leaves alone *)

Lemma own_afterSplit o k :
  k <> "region" -> k <> "account" -> own (afterSplit o) k = own o k.
Proof.
  intros H1 H2. unfold afterSplit.
  destruct (splits (text (get o "account"))); [|reflexivity].
  rewrite !own_set.
  apply String.eqb_neq in H1, H2. now rewrite H1, H2.
Qed.

Lemma own_afterDerive o k :
  k <> "region" -> k <> "accessUrl" -> own (afterDerive o) k = own o k.
Proof.
  intros H1 H2. unfold afterDerive.
  apply String.eqb_neq in H1, H2.
  destruct (Util.exists_ (get o "accessUrl")); [reflexivity|].
  destruct (Util.exists_ (get o "region")
            && String.eqb (text (get o "region")) "us-west-2");
    rewrite !own_set, ?H1, ?H2; reflexivity.
Qed.

Lemma validateIdentity_frame vc o o1 k :
  validateIdentity vc o = (o1, inr tt) ->
  k <> "region" -> k <> "account" -> k <> "accessUrl" ->
  own o1 k = own o k.
Proof.
  intros H H1 H2 H3.
  apply validateIdentity_inv in H as (_ & [(_ & ->)|(_ & _ & _ & _ & ->)]).
  - reflexivity.
  - now rewrite own_afterDerive, own_afterSplit.
Qed.

Lemma get_frame o o1 k : own o1 k = own o k -> get o1 k = get o k.
Proof. unfold get. now intros ->. Qed.

Lemma get_afterSplit_account o a :
  get o "account" = VStr a ->
  get (afterSplit o) "account"
  = VStr (if splits a then beforeDot a else a).
Proof.
  intros E. unfold afterSplit. rewrite E; simpl.
  destruct (splits a); [|exact E].
  now rewrite get_set_same.
Qed.

Lemma get_afterSplit_region o a :
  get o "account" = VStr a ->
  get (afterSplit o) "region"
  = if splits a then VStr (afterDot a) else get o "region".
Proof.
  intros E. unfold afterSplit. rewrite E; simpl.
  destruct (splits a); [|reflexivity].
  rewrite get_set. simpl. now rewrite get_set_same.
Qed.

Lemma get_afterSplit_accessUrl o :
  get (afterSplit o) "accessUrl" = get o "accessUrl".
Proof. apply get_frame, own_afterSplit; discriminate. Qed.

Lemma get_afterDerive_accessUrl o :
  get (afterDerive o) "accessUrl"
  = if Util.exists_ (get o "accessUrl") then get o "accessUrl"
    else VStr (derivedUrl (text (get o "account")) (get o "region")).
Proof.
  unfold afterDerive.
  destruct (Util.exists_ (get o "accessUrl")); [reflexivity|].
  destruct (Util.exists_ (get o "region")
            && String.eqb (text (get o "region")) "us-west-2");
    now rewrite get_set_same.
Qed.

(** ** Running the constructor on two related options objects *)

Section Simulation.

Variable R : object -> object -> Prop.

Hypothesis R_get :
  forall o1 o2 f, R o1 o2 -> In f optionFields -> get o1 f = get o2 f.

Hypothesis R_set :
  forall o1 o2 f v,
    R o1 o2 -> In f optionFields -> R (set o1 f v) (set o2 f v).

Variable RP : ParameterMap -> ParameterMap -> Prop.

Hypothesis R_parameters :
  forall o1 o2, R o1 o2 ->
    outcomes RP
      (overrideParameters o1 (initParameters createParameters))
      (overrideParameters o2 (initParameters createParameters)).

Lemma related_ret {A} (RA : A -> A -> Prop) a1 a2 :
  RA a1 a2 -> related R RA (ret a1) (ret a2).
Proof. intros H o1 o2 HR. now split. Qed.

Lemma related_throw {A} (RA : A -> A -> Prop) e :
  related R RA (throw e) (throw e).
Proof. intros o1 o2 HR. now split. Qed.

Lemma related_bind {A B} (RA : A -> A -> Prop) (RB : B -> B -> Prop)
    (m1 m2 : M A) (f1 f2 : A -> M B) :
  related R RA m1 m2 ->
  (forall a1 a2, RA a1 a2 -> related R RB (f1 a1) (f2 a2)) ->
  related R RB (bind m1 f1) (bind m2 f2).
Proof.
  intros Hm Hf o1 o2 HR. unfold bind.
  destruct (Hm o1 o2 HR) as [HR' Ho].
  destruct (m1 o1) as [o1' [e1|a1]], (m2 o2) as [o2' [e2|a2]];
    simpl in *; try contradiction.
  - now split.
  - now apply Hf.
Qed.

Lemma related_step {A B} (RB : B -> B -> Prop) (m : M A)
    (f : A -> M B) :
  related R eq m m ->
  (forall a, related R RB (f a) (f a)) ->
  related R RB (bind m f) (bind m f).
Proof.
  intros Hm Hf. apply related_bind with (RA := eq); [exact Hm|].
  intros a1 a2 <-. apply Hf.
Qed.

Lemma related_read f : In f optionFields -> related R eq (read f) (read f).
Proof. intros Hf o1 o2 HR. split; [exact HR|]. simpl. now apply R_get. Qed.

Lemma related_write f v :
  In f optionFields -> related R eq (write f v) (write f v).
Proof. intros Hf o1 o2 HR. split; [now apply R_set | reflexivity]. Qed.

Lemma related_snapshot : related R R snapshot snapshot.
Proof. intros o1 o2 HR. now split. Qed.

Lemma related_lift {A} (RA : A -> A -> Prop) r1 r2 :
  outcomes RA r1 r2 -> related R RA (lift r1) (lift r2).
Proof. intros H o1 o2 HR. now split. Qed.

Lemma related_checkArgumentExists b code :
  related R eq (Errors.checkArgumentExists b code)
    (Errors.checkArgumentExists b code).
Proof. destruct b; [now apply related_ret | apply related_throw]. Qed.

Lemma related_checkArgumentValid b code d :
  related R eq (Errors.checkArgumentValid b code d)
    (Errors.checkArgumentValid b code d).
Proof. destruct b; [now apply related_ret | apply related_throw]. Qed.

Lemma related_assertInternal b :
  related R eq (Errors.assertInternal b) (Errors.assertInternal b).
Proof. destruct b; [now apply related_ret | apply related_throw]. Qed.

Ltac related_tac :=
  repeat first
    [ apply related_throw
    | apply related_ret; reflexivity
    | apply related_read; simpl; tauto
    | apply related_write; simpl; tauto
    | apply related_checkArgumentExists
    | apply related_checkArgumentValid
    | apply related_assertInternal
    | apply related_step; [|intros ?]
    | match goal with
      | |- related _ _ (if ?b then _ else _) _ => destruct b
      end ].

Lemma related_checkCredentials :
  related R eq checkCredentials checkCredentials.
Proof. unfold checkCredentials. related_tac. Qed.

Lemma related_splitAccount : related R eq splitAccount splitAccount.
Proof. unfold splitAccount. related_tac. Qed.

Lemma related_deriveAccessUrl :
  related R eq deriveAccessUrl deriveAccessUrl.
Proof. unfold deriveAccessUrl. related_tac. Qed.

Lemma related_checkAccessUrl : related R eq checkAccessUrl checkAccessUrl.
Proof. unfold checkAccessUrl. related_tac. Qed.

Lemma related_validateIdentity vc :
  related R eq (validateIdentity vc) (validateIdentity vc).
Proof.
  unfold validateIdentity.
  apply related_step; [|intros ?; apply related_checkAccessUrl].
  destruct (truthy vc); [|now apply related_ret].
  apply related_step; [apply related_checkCredentials|intros ?].
  apply related_step; [apply related_splitAccount|intros ?].
  apply related_deriveAccessUrl.
Qed.

Variable isNode : bool.
Variable isValidValue : JsValue -> bool.

Lemma related_resolveProxy :
  related R eq (resolveProxy isNode) (resolveProxy isNode).
Proof. unfold resolveProxy. related_tac. Qed.

Lemma related_checkOptional v test code :
  related R eq (checkOptional v test code) (checkOptional v test code).
Proof. unfold checkOptional. related_tac. Qed.

Lemma related_checkFetchAsString v :
  related R eq (checkFetchAsString isValidValue v)
    (checkFetchAsString isValidValue v).
Proof. unfold checkFetchAsString. related_tac. Qed.

Lemma related_checkClientInfo ci :
  related R eq (checkClientInfo ci) (checkClientInfo ci).
Proof. unfold checkClientInfo. related_tac. Qed.

Lemma related_configure qa ci :
  related R (alike RP) (configure isNode isValidValue qa ci)
    (configure isNode isValidValue qa ci).
Proof.
  unfold configure.
  apply related_step; [apply related_resolveProxy|intros ?].
  repeat first
    [ apply related_step;
      [ first [ apply related_read; simpl; tauto
              | apply related_checkOptional
              | apply related_checkFetchAsString
              | apply related_checkClientInfo ]
      | intros ? ] ].
  apply related_bind with (RA := R); [apply related_snapshot|].
  intros o1 o2 HR.
  apply related_bind with (RA := RP);
    [apply related_lift; now apply R_parameters|].
  intros m1 m2 Hm. apply related_ret. split; [reflexivity | exact Hm].
Qed.

Lemma related_construct vc qa ci :
  related R (alike RP) (construct isNode isValidValue vc qa ci)
    (construct isNode isValidValue vc qa ci).
Proof.
  unfold construct.
  apply related_step; [apply related_validateIdentity|intros ?].
  apply related_configure.
Qed.

(** Related options objects make the constructor end the same way. *)
Lemma related_ConnectionConfig o1 o2 vc qa ci :
  R o1 o2 ->
  outcomes (alike RP)
    (result (ConnectionConfig isNode isValidValue (VObj o1) vc qa ci))
    (result (ConnectionConfig isNode isValidValue (VObj o2) vc qa ci)).
Proof.
  intros HR. rewrite !ConnectionConfig_object. unfold result; simpl.
  now apply related_construct.
Qed.

End Simulation.

(** ** The checks of the configuration stage *)

Lemma bind_read {B} k (f : JsValue -> M B) o :
  bind (read k) f o = f (get o k) o.
Proof. reflexivity. Qed.

Lemma bind_snapshot {B} (f : object -> M B) o : bind snapshot f o = f o o.
Proof. reflexivity. Qed.

(** The outcome of the proxy step, in the order the code makes its
    checks. *)
Lemma resolveProxy_run isNode o :
  resolveProxy isNode o =
  (o,
   let proxyHost := get o "proxyHost" in
   let proxyPort := get o "proxyPort" in
   if isNode && (Util.exists_ proxyHost || Util.exists_ proxyPort) then
     if negb (Util.exists_ proxyHost) then
       inl (MissingParameterError ERR_CONN_CREATE_MISSING_PROXY_HOST)
     else if negb (Util.isString proxyHost) then
       inl (InvalidParameterError ERR_CONN_CREATE_INVALID_PROXY_HOST
              VUndefined)
     else if negb (Util.exists_ proxyPort) then
       inl (MissingParameterError ERR_CONN_CREATE_MISSING_PROXY_PORT)
     else if negb (Util.isNumber proxyPort) then
       inl (InvalidParameterError ERR_CONN_CREATE_INVALID_PROXY_PORT
              VUndefined)
     else inr (VObj [("host", proxyHost); ("port", proxyPort)])
   else inr VUndefined).
Proof.
  unfold resolveProxy. run_steps.
  destruct isNode; simpl; [|reflexivity].
  destruct (get o "proxyHost"), (get o "proxyPort"); reflexivity.
Qed.

Lemma resolveProxy_ok isNode o :
  proxyFieldsValid isNode o = true ->
  exists p, resolveProxy isNode o = (o, inr p).
Proof.
  rewrite resolveProxy_run. unfold proxyFieldsValid.
  destruct isNode; simpl; [|now eexists].
  destruct (get o "proxyHost"), (get o "proxyPort"); simpl;
    try discriminate; intros _; now eexists.
Qed.

Lemma checkOptional_ok v test code o :
  absentOr test v = true -> checkOptional v test code o = (o, inr tt).
Proof.
  unfold absentOr, checkOptional, Errors.checkArgumentValid.
  destruct (Util.exists_ v); simpl; [|reflexivity].
  now intros ->.
Qed.

Lemma findInvalidValueFrom_valid isValidValue values :
  forall index,
    forallb isValidValue values = true ->
    findInvalidValueFrom isValidValue index values = -1.
Proof.
  induction values as [|v values IH]; simpl; intros index H.
  - reflexivity.
  - apply andb_prop in H as [Hv Hrest]. rewrite Hv. now apply IH.
Qed.

Lemma checkFetchAsString_ok isValidValue v o :
  fetchAsStringValid isValidValue v = true ->
  checkFetchAsString isValidValue v o = (o, inr tt).
Proof.
  unfold fetchAsStringValid, checkFetchAsString.
  destruct v; simpl; try discriminate; try reflexivity.
  intros H. run_steps.
  now rewrite (findInvalidValueFrom_valid _ _ 0 H).
Qed.

Lemma checkClientInfo_ok ci o :
  clientInfoValid ci = true ->
  exists client, checkClientInfo ci o = (o, inr client).
Proof.
  unfold clientInfoValid, checkClientInfo.
  destruct (Util.exists_ ci); simpl; [|now eexists].
  intros H. apply andb_prop in H as [H H3]. apply andb_prop in H as [H1 H2].
  rewrite H1, H2, H3. now eexists.
Qed.

(** With every optional field absent or valid, and no property of the
    options shadowing [hasOwnProperty], the second stage builds a
    configuration. *)
Lemma configure_succeeds isNode isValidValue qa ci o :
  optionalFieldsValid isNode isValidValue o ci = true ->
  has o "hasOwnProperty" = false ->
  exists c, configure isNode isValidValue qa ci o = (o, inr c).
Proof.
  unfold optionalFieldsValid. intros H Hno.
  apply andb_prop in H as [H Hclient]. apply andb_prop in H as [H Hfetch].
  apply andb_prop in H as [H Hstream]. apply andb_prop in H as [H Hrole].
  apply andb_prop in H as [H Hschema]. apply andb_prop in H as [H Hdb].
  apply andb_prop in H as [Hproxy Hwh].
  destruct (resolveProxy_ok _ _ Hproxy) as [p Hp].
  destruct (checkClientInfo_ok ci o Hclient) as [client Hc].
  unfold configure.
  rewrite (bind_ok _ _ _ _ _ Hp), !bind_read.
  rewrite (bind_ok _ _ _ _ _ (checkOptional_ok _ _ _ o Hwh)).
  rewrite (bind_ok _ _ _ _ _ (checkOptional_ok _ _ _ o Hdb)).
  rewrite (bind_ok _ _ _ _ _ (checkOptional_ok _ _ _ o Hschema)).
  rewrite (bind_ok _ _ _ _ _ (checkOptional_ok _ _ _ o Hrole)).
  rewrite bind_read.
  rewrite (bind_ok _ _ _ _ _ (checkOptional_ok _ _ _ o Hstream)).
  rewrite bind_read.
  rewrite (bind_ok _ _ _ _ _ (checkFetchAsString_ok _ _ o Hfetch)).
  rewrite (bind_ok _ _ _ _ _ Hc), !bind_read.
  cbv zeta. rewrite bind_snapshot.
  unfold bind, lift. rewrite overrideParameters_run, Hno. now eexists.
Qed.

(** A failing proxy step is the failure of the second stage. *)
Lemma configure_proxy_fails isNode isValidValue qa ci o e :
  resolveProxy isNode o = (o, inl e) ->
  configure isNode isValidValue qa ci o = (o, inl e).
Proof. intros H. unfold configure. now rewrite (bind_fail _ _ _ _ _ H). Qed.

(** ** The account and its parts *)

Lemma substring_whole s : String.substring 0 (String.length s) s = s.
Proof. induction s as [|a s IH]; simpl; [reflexivity | now rewrite IH]. Qed.

Lemma indexOf_parts s c :
  0 <= indexOf s c ->
  let n := Z.to_nat (indexOf s c) in
  s = (String.substring 0 n s
       ++ String c (String.substring (S n) (String.length s - S n) s))%string.
Proof.
  induction s as [|a s IH]; simpl; [lia|].
  destruct (Ascii.eqb a c) eqn:Ea.
  - intros _. apply Ascii.eqb_eq in Ea; subst a. simpl.
    now rewrite Nat.sub_0_r, substring_whole.
  - destruct (indexOf s c <? 0) eqn:E; [lia|].
    apply Z.ltb_ge in E. intros _.
    replace (Z.to_nat (indexOf s c + 1)) with (S (Z.to_nat (indexOf s c)))
      by lia.
    simpl. f_equal. now apply IH.
Qed.

(** An account that splits is the part before the dot, the dot, and the part
    after it. *)
Lemma account_parts a :
  splits a = true -> a = (beforeDot a ++ "." ++ afterDot a)%string.
Proof.
  intros H. rewrite (beforeDot_prefix a H).
  unfold splits in H. apply andb_prop in H as [H1 H2].
  apply Z.ltb_lt in H1, H2.
  unfold afterDot, substring1, substring2, clamp, str_length in *.
  set (p := indexOf a ".") in *.
  set (n := Z.of_nat (String.length a)) in *.
  replace (Z.max 0 (Z.min (p + 1) n)) with (p + 1) by lia.
  replace (Z.max 0 (Z.min n n)) with n by lia.
  replace (Z.min (p + 1) n) with (p + 1) by lia.
  replace (Z.max (p + 1) n - (p + 1)) with (n - (p + 1)) by lia.
  replace (Z.to_nat (p + 1)) with (S (Z.to_nat p)) by lia.
  replace (Z.to_nat (n - (p + 1)))
    with (String.length a - S (Z.to_nat p))%nat by lia.
  apply (indexOf_parts a "."). fold p. lia.
Qed.

(** * The claims *)

(** C8. [clearCredentials] sets the password to null, a second call changes
    nothing more, and the username and the access url stay as they were.
    This holds of every configuration, so of every constructed one. *)
Theorem clearCredentials_clears_password_only (c : Config) :
  password (clearCredentials c) = VNull
  /\ clearCredentials (clearCredentials c) = clearCredentials c
  /\ username (clearCredentials c) = username c
  /\ accessUrl (clearCredentials c) = accessUrl c.
Proof. repeat split. Qed.

Lemma constructed_parameters isNode isValidValue o vc qa ci r c :
  ConnectionConfig isNode isValidValue (VObj o) vc qa ci = (r, inr c) ->
  _mapParameters c = resolveFromCatalog o.
Proof.
  intros H. apply ConnectionConfig_inv in H as (o' & -> & Hid & Hc).
  apply configure_inv in Hc as (_ & _ & _ & _ & _ & _ & _ & Hm).
  rewrite overrideParameters_run in Hm.
  destruct (has o' "hasOwnProperty"); [discriminate|].
  injection Hm as <-.
  rewrite overrideParametersPlain_catalog. apply resolveFromCatalog_ext.
  intros p Hin. apply (validateIdentity_frame _ _ _ _ Hid);
    simpl in Hin; intuition (subst; discriminate).
Qed.


Lemma resolveFromCatalog_keys o :
  keys (resolveFromCatalog o) = map name createParameters.
Proof. reflexivity. Qed.

(** C7, as the code has it: for a name that is not in the catalog the
    accessor of a constructed configuration returns [undefined]; it does not
    throw. *)
Theorem unknown_parameter_is_undefined isNode isValidValue o vc qa ci r c n :
  ConnectionConfig isNode isValidValue (VObj o) vc qa ci = (r, inr c) ->
  ~ In n (map name createParameters) ->
  _getParameterValue c n = inr VUndefined.
Proof.
  intros H Hn. unfold _getParameterValue.
  rewrite (constructed_parameters _ _ _ _ _ _ _ _ H).
  rewrite own_not_in; [reflexivity|].
  now rewrite resolveFromCatalog_keys.
Qed.

Lemma unknown_parameter_is_undefined_witness :
  built (ConnectionConfig true anyTypeName (VObj (credentials "abc"))
           VUndefined VUndefined VUndefined)
    (fun c => _getParameterValue c "noSuchParameter" = inr VUndefined).
Proof.
  unfold built.
  destruct (ConnectionConfig true anyTypeName (VObj (credentials "abc"))
              VUndefined VUndefined VUndefined) as [r [e|c]] eqn:E.
  - vm_compute in E. discriminate E.
  - simpl.
    apply (unknown_parameter_is_undefined _ _ _ _ _ _ _ _ _ E).
    simpl. intuition discriminate.
Defined.

(** C7, as stated, fails: on a configuration built from plain credentials the
    accessor called with the unknown name "noSuchParameter" returns
    [undefined], which is not the internal assertion error. *)
Lemma unknown_parameter_counterexample :
  built (ConnectionConfig true anyTypeName (VObj (credentials "abc"))
           VUndefined VUndefined VUndefined)
    (fun c =>
       ~ In "noSuchParameter" (map name createParameters)
       /\ _getParameterValue c "noSuchParameter" = inr VUndefined
       /\ _getParameterValue c "noSuchParameter" <> inl InternalAssertError).
Proof.
  unfold built. vm_compute. repeat split; try discriminate.
  intuition discriminate.
Qed.

(** ** The access url *)

Lemma constructed_identity isNode isValidValue o vc qa ci r c :
  ConnectionConfig isNode isValidValue (VObj o) vc qa ci = (r, inr c) ->
  exists o',
    r = VObj o'
    /\ validateIdentity (effectiveFlag vc) o = (o', inr tt)
    /\ username c = get o' "username"
    /\ password c = get o' "password"
    /\ accessUrl c = get o' "accessUrl"
    /\ account c = get o' "account"
    /\ resolveProxy isNode o' = (o', inr (proxy c)).
Proof.
  intros H. apply ConnectionConfig_inv in H as (o' & -> & Hid & Hc).
  apply configure_inv in Hc as (_ & _ & Hp & Hu & Hpw & Hurl & Hacc & _).
  exists o'. repeat split; assumption.
Qed.

Lemma derivedUrl_https a region : httpsUrl (derivedUrl a region).
Proof.
  exists (a ++ subdomain region ++ ".snowflakecomputing.com")%string.
  split; [|reflexivity].
  destruct a; simpl; [|discriminate].
  destruct (subdomain region); discriminate.
Qed.

(** C6, as the code has it: after a successful construction the stored
    access url is a string; a supplied one is stored as it was given, with
    no check of its form, and a derived one has the shape https://<host>
    with a host that is not empty. *)
Theorem stored_access_url isNode isValidValue o vc qa ci r c :
  ConnectionConfig isNode isValidValue (VObj o) vc qa ci = (r, inr c) ->
  exists s,
    accessUrl c = VStr s
    /\ (Util.exists_ (get o "accessUrl") = true ->
        accessUrl c = get o "accessUrl")
    /\ (Util.exists_ (get o "accessUrl") = false -> httpsUrl s).
Proof.
  intros H.
  apply constructed_identity in H
    as (o' & _ & Hid & _ & _ & Hurl & _ & _).
  apply validateIdentity_inv in Hid
    as (Hs & [(_ & ->)|(_ & _ & _ & _ & ->)]).
  - destruct (get o "accessUrl") as [| | | |s| |] eqn:E; try discriminate.
    exists s. rewrite Hurl. repeat split; try reflexivity; discriminate.
  - rewrite get_afterDerive_accessUrl, get_afterSplit_accessUrl in *.
    rewrite Hurl. clear Hurl.
    destruct (Util.exists_ (get o "accessUrl")) eqn:Ex.
    + destruct (get o "accessUrl") as [| | | |s| |]; try discriminate.
      exists s. repeat split; try reflexivity; discriminate.
    + eexists. repeat split; try reflexivity; try discriminate.
      intros _. apply derivedUrl_https.
Qed.

Lemma stored_access_url_witness :
  built (ConnectionConfig true anyTypeName (VObj (credentials "abc"))
           VUndefined VUndefined VUndefined)
    (fun c => exists s, accessUrl c = VStr s /\ httpsUrl s).
Proof.
  unfold built.
  destruct (ConnectionConfig true anyTypeName (VObj (credentials "abc"))
              VUndefined VUndefined VUndefined) as [r [e|c]] eqn:E.
  - vm_compute in E. discriminate E.
  - simpl.
    destruct (stored_access_url _ _ _ _ _ _ _ _ E) as (s & Hs & _ & Hd).
    exists s. split; [exact Hs | apply Hd; reflexivity].
Defined.

(** C6, as stated, fails: with credential validation off and the empty string
    supplied as access url the construction succeeds, and the stored access
    url is the empty string, which is not of the shape https://<host>. *)
Lemma stored_access_url_counterexample :
  built (ConnectionConfig true anyTypeName (VObj [("accessUrl", VStr "")])
           (VBool false) VUndefined VUndefined)
    (fun c => accessUrl c = VStr "" /\ ~ httpsUrl "").
Proof.
  unfold built. vm_compute. split; [reflexivity|].
  intros (host & _ & H). discriminate H.
Qed.

(** C1, as the code has it: with credential validation on, a string account
    and no access url, a successful construction stores
    https://{account}{subdomain}.snowflakecomputing.com, where account and
    region are taken after the account has been split: for an account that
    splits, the part before its first dot and the part after it; for any
    other account, the account and the region as supplied.  The subdomain is
    empty for an absent region and for "us-west-2", and a dot followed by the
    region otherwise. *)
Theorem derived_access_url isNode isValidValue o vc qa ci a r c :
  validationOn vc = true ->
  get o "account" = VStr a ->
  Util.exists_ (get o "accessUrl") = false ->
  ConnectionConfig isNode isValidValue (VObj o) vc qa ci = (r, inr c) ->
  accessUrl c
  = VStr (derivedUrl (if splits a then beforeDot a else a)
            (if splits a then VStr (afterDot a) else get o "region")).
Proof.
  intros Hon Ha Hno H.
  apply constructed_identity in H
    as (o' & _ & Hid & _ & _ & Hurl & _ & _).
  apply validateIdentity_inv in Hid
    as (_ & [(Hoff & _)|(_ & _ & _ & _ & ->)]).
  - rewrite truthy_effectiveFlag in Hoff. congruence.
  - rewrite Hurl, get_afterDerive_accessUrl, get_afterSplit_accessUrl, Hno.
    now rewrite (get_afterSplit_account o a Ha),
      (get_afterSplit_region o a Ha).
Qed.

Lemma derived_access_url_witness :
  built (ConnectionConfig true anyTypeName
           (VObj (credentials "abc" ++ [("region", VStr "eu-central-1")]))
           VUndefined VUndefined VUndefined)
    (fun c =>
       accessUrl c = VStr "https://abc.eu-central-1.snowflakecomputing.com").
Proof.
  unfold built.
  destruct (ConnectionConfig true anyTypeName
              (VObj (credentials "abc" ++ [("region", VStr "eu-central-1")]))
              VUndefined VUndefined VUndefined) as [r [e|c]] eqn:E.
  - vm_compute in E. discriminate E.
  - simpl.
    exact (derived_access_url true anyTypeName
             (credentials "abc" ++ [("region", VStr "eu-central-1")])%list
             VUndefined VUndefined VUndefined "abc" r c
             eq_refl eq_refl eq_refl E).
Defined.

(** C1, as stated, fails: for the account "abc.us-west-2" without region and
    access url the claim gives https://abc.us-west-2.snowflakecomputing.com,
    the account followed by an empty subdomain, while the constructor splits
    the account and stores https://abc.snowflakecomputing.com. *)
Lemma derived_access_url_counterexample :
  let o := credentials "abc.us-west-2" in
  validationOn VUndefined = true
  /\ get o "account" = VStr "abc.us-west-2"
  /\ Util.exists_ (get o "accessUrl") = false
  /\ built (ConnectionConfig true anyTypeName (VObj o)
              VUndefined VUndefined VUndefined)
       (fun c =>
          accessUrl c = VStr "https://abc.snowflakecomputing.com"
          /\ accessUrl c
             <> VStr (derivedUrl "abc.us-west-2" (get o "region"))).
Proof.
  unfold built. vm_compute. repeat split; discriminate.
Qed.

(** C10. With credential validation on and an access url supplied, an account
    whose first dot is neither its first nor its last character is still
    split: the configuration stores the part before the dot as account, and
    the options object holds the part after the dot as region, whatever
    region the caller gave. *)
Theorem account_split_despite_access_url
    isNode isValidValue o vc qa ci a r c :
  validationOn vc = true ->
  get o "account" = VStr a ->
  splits a = true ->
  Util.exists_ (get o "accessUrl") = true ->
  ConnectionConfig isNode isValidValue (VObj o) vc qa ci = (r, inr c) ->
  account c = VStr (beforeDot a)
  /\ get_prop r "region" = VStr (afterDot a)
  /\ accessUrl c = get o "accessUrl".
Proof.
  intros Hon Ha Hs Hurl H.
  apply constructed_identity in H
    as (o' & -> & Hid & _ & _ & Hu & Hacc & _).
  apply validateIdentity_inv in Hid
    as (_ & [(Hoff & _)|(_ & _ & _ & _ & ->)]).
  - rewrite truthy_effectiveFlag in Hoff. congruence.
  - assert (afterDerive (afterSplit o) = afterSplit o) as Hsame.
    { unfold afterDerive. now rewrite get_afterSplit_accessUrl, Hurl. }
    rewrite Hsame in *. simpl.
    rewrite Hacc, Hu, (get_afterSplit_account o a Ha),
      (get_afterSplit_region o a Ha), get_afterSplit_accessUrl, Hs.
    auto.
Qed.

Lemma account_split_despite_access_url_witness :
  built (ConnectionConfig true anyTypeName
           (VObj (credentials "abc.eu-central-1"
                  ++ [("region", VStr "us-east-1");
                      ("accessUrl", VStr "https://proxy.example.com")]))
           VUndefined VUndefined VUndefined)
    (fun c => account c = VStr "abc").
Proof.
  unfold built.
  destruct (ConnectionConfig true anyTypeName
              (VObj (credentials "abc.eu-central-1"
                     ++ [("region", VStr "us-east-1");
                         ("accessUrl", VStr "https://proxy.example.com")]))
              VUndefined VUndefined VUndefined) as [r [e|c]] eqn:E.
  - vm_compute in E. discriminate E.
  - simpl.
    exact (proj1
             (account_split_despite_access_url true anyTypeName
                (credentials "abc.eu-central-1"
                 ++ [("region", VStr "us-east-1");
                     ("accessUrl", VStr "https://proxy.example.com")])%list
                VUndefined VUndefined VUndefined "abc.eu-central-1" r c
                eq_refl eq_refl eq_refl eq_refl E)).
Defined.

(** ** Options with the same content *)

Lemma alike_eq c1 c2 : alike eq c1 c2 -> c1 = c2.
Proof.
  intros [H1 H2]. destruct c1, c2. simpl in *.
  inversion H1; subst. reflexivity.
Qed.

Lemma outcomes_alike_eq r1 r2 : outcomes (alike eq) r1 r2 -> r1 = r2.
Proof.
  destruct r1 as [e1|c1], r2 as [e2|c2]; simpl; try contradiction.
  - now intros ->.
  - intros H. f_equal. now apply alike_eq.
Qed.

Lemma sameContent_get o1 o2 f : sameContent o1 o2 -> get o1 f = get o2 f.
Proof. intros H. unfold get. now rewrite (H f). Qed.

Lemma sameContent_set o1 o2 f v :
  sameContent o1 o2 -> sameContent (set o1 f v) (set o2 f v).
Proof. intros H k. now rewrite !own_set, (H k). Qed.

Lemma sameContent_parameters o1 o2 m :
  m = initParameters createParameters ->
  sameContent o1 o2 -> overrideParametersPlain o1 m = overrideParametersPlain o2 m.
Proof.
  intros -> H. rewrite !overrideParametersPlain_catalog.
  apply resolveFromCatalog_ext. intros p _. apply H.
Qed.

Lemma sameContent_loop o1 o2 :
  sameContent o1 o2 ->
  outcomes eq
    (overrideParameters o1 (initParameters createParameters))
    (overrideParameters o2 (initParameters createParameters)).
Proof.
  intros H. rewrite !overrideParameters_run.
  assert (has o1 "hasOwnProperty" = has o2 "hasOwnProperty") as ->
    by (unfold has; now rewrite (H "hasOwnProperty")).
  destruct (has o2 "hasOwnProperty"); simpl; [reflexivity|].
  now apply sameContent_parameters.
Qed.

(** The constructor ends the same way on options with the same content. *)
Lemma sameContent_result isNode isValidValue o1 o2 vc qa ci :
  sameContent o1 o2 ->
  result (ConnectionConfig isNode isValidValue (VObj o1) vc qa ci)
  = result (ConnectionConfig isNode isValidValue (VObj o2) vc qa ci).
Proof.
  intros H. apply outcomes_alike_eq.
  apply related_ConnectionConfig with (R := sameContent); try assumption.
  - intros a b f Hab _. now apply sameContent_get.
  - intros a b f v Hab _. now apply sameContent_set.
  - intros a b Hab. now apply sameContent_loop.
Qed.

Lemma permutation_sameContent (o o2 : object) :
  wf_object o -> Permutation o o2 -> sameContent o o2.
Proof. intros Hwf Hp k. now apply own_permutation. Qed.

(** ** The account given with its region *)

Lemma has_of_get (o : object) k s : get o k = VStr s -> has o k = true.
Proof. intros H. apply exists_has. now rewrite H. Qed.

Lemma afterSplit_dotted o a :
  get o "account" = VStr a -> splits a = true ->
  afterSplit o
  = set (set o "account" (VStr (beforeDot a))) "region" (VStr (afterDot a)).
Proof.
  intros Ha Hs. unfold afterSplit. rewrite Ha; simpl. rewrite Hs.
  symmetry. apply set_set_present; [|discriminate].
  now apply has_of_get with a.
Qed.

Lemma afterSplit_undotted o a :
  get o "account" = VStr a -> splits a = false -> afterSplit o = o.
Proof. intros Ha Hs. unfold afterSplit. rewrite Ha; simpl. now rewrite Hs. Qed.

Lemma dotted_account_result isNode isValidValue o vc qa ci a :
  validationOn vc = true ->
  get o "account" = VStr a ->
  splits a = true ->
  result (ConnectionConfig isNode isValidValue (VObj o) vc qa ci)
  = result
      (ConnectionConfig isNode isValidValue
         (VObj (set (set o "account" (VStr (beforeDot a))) "region"
                  (VStr (afterDot a))))
         vc qa ci).
Proof.
  intros Hon Ha Hs.
  set (o' := set (set o "account" (VStr (beforeDot a))) "region"
               (VStr (afterDot a))).
  assert (get o' "account" = VStr (beforeDot a)) as Ha'
    by (unfold o'; rewrite get_set; simpl; apply get_set_same).
  assert (get o' "username" = get o "username") as Hu
    by (unfold o'; now rewrite !get_set).
  assert (get o' "password" = get o "password") as Hp
    by (unfold o'; now rewrite !get_set).
  rewrite !ConnectionConfig_object. unfold result, construct; cbn [fst snd].
  rewrite <- truthy_effectiveFlag in Hon.
  unfold bind. rewrite !(validateIdentity_on _ _ Hon).
  rewrite !checkCredentials_run. cbn [snd].
  rewrite Hu, Hp, Ha, Ha'. cbn [Util.exists_ Util.isString negb].
  destruct (negb (Util.exists_ (get o "username"))); [reflexivity|].
  destruct (negb (Util.isString (get o "username"))); [reflexivity|].
  destruct (negb (Util.exists_ (get o "password"))); [reflexivity|].
  destruct (negb (Util.isString (get o "password"))); [reflexivity|].
  rewrite (afterSplit_dotted o a Ha Hs). fold o'.
  rewrite (afterSplit_undotted o' _ Ha' (splits_beforeDot a Hs)).
  reflexivity.
Qed.

(** C4. With credential validation on, an account whose first dot is neither
    its first nor its last character gives the same outcome, and so on
    success the same configuration, as options that hold the part before the
    dot as account and the part after it as region, in whatever order their
    properties come.  (Whether the first options held a region does not
    matter: the split replaces it.) *)
Theorem dotted_account_same_as_split
    isNode isValidValue o o2 vc qa ci a :
  validationOn vc = true ->
  get o "account" = VStr a ->
  splits a = true ->
  sameContent o2
    (set (set o "account" (VStr (beforeDot a))) "region"
       (VStr (afterDot a))) ->
  result (ConnectionConfig isNode isValidValue (VObj o) vc qa ci)
  = result (ConnectionConfig isNode isValidValue (VObj o2) vc qa ci).
Proof.
  intros Hon Ha Hs Hsame.
  rewrite (sameContent_result _ _ _ _ vc qa ci Hsame).
  now apply dotted_account_result.
Qed.

Lemma dotted_account_same_as_split_witness :
  result (ConnectionConfig true anyTypeName
            (VObj (credentials "abc.eu-central-1"))
            VUndefined VUndefined VUndefined)
  = result (ConnectionConfig true anyTypeName
              (VObj (("region", VStr "eu-central-1") :: credentials "abc"))
              VUndefined VUndefined VUndefined).
Proof.
  apply (dotted_account_same_as_split true anyTypeName
           (credentials "abc.eu-central-1")
           (("region", VStr "eu-central-1") :: credentials "abc")
           VUndefined VUndefined VUndefined "abc.eu-central-1"
           eq_refl eq_refl eq_refl).
  apply permutation_sameContent.
  - unfold wf_object. simpl.
    repeat (constructor; [simpl; intuition discriminate|]). constructor.
  - apply (Permutation_cons_append (credentials "abc")).
Defined.

(** ** The parameters *)



Lemma own_catalog_map (g : Param -> Param) (l : list Param) p :
  NoDup (map name l) -> In p l ->
  own (map (fun q => (name q, g q)) l) (name p) = Some (g p).
Proof.
  induction l as [|q l IH]; simpl; [easy|].
  intros Hnd [->|Hin].
  - now rewrite String.eqb_refl.
  - inversion Hnd as [|? ? Hnotin Hnd']; subst.
    destruct (String.eqb (name p) (name q)) eqn:E.
    + apply String.eqb_eq in E. exfalso. apply Hnotin.
      rewrite <- E. now apply in_map.
    + now apply IH.
Qed.

(** The value that the resolution leaves in a catalog entry. *)
Lemma resolveFromCatalog_value o p :
  In p createParameters ->
  own (resolveFromCatalog o) (name p)
  = Some (with_value p
            (if has o (name p) && external p && validate p (get o (name p))
             then get o (name p) else defaultValue p)).
Proof.
  intros Hin. unfold resolveFromCatalog.
  rewrite (own_catalog_map
             (fun p =>
                if has o (name p)
                then
                  let supplied := get o (name p) in
                  if external p && validate p supplied
                  then with_value p supplied
                  else with_value p (defaultValue p)
                else with_value p (defaultValue p)))
    by (apply catalog_names_distinct || assumption).
  cbv zeta.
  destruct (has o (name p)); simpl; [|reflexivity].
  destruct (external p && validate p (get o (name p))); reflexivity.
Qed.

Lemma catalog_name_not_field p f :
  In p createParameters -> In f optionFields -> f <> name p.
Proof.
  intros Hp Hf. simpl in Hp, Hf.
  repeat (destruct Hp as [<-|Hp]);
    try contradiction;
    repeat (destruct Hf as [<-|Hf]); try contradiction; discriminate.
Qed.

Lemma sameExcept_set o k v : sameExcept k o (set o k v).
Proof.
  intros k' Hne. rewrite own_set.
  apply String.eqb_neq in Hne. now rewrite Hne.
Qed.

Lemma outcomes_failure RP r1 r2 :
  outcomes (alike RP) r1 r2 ->
  match r1 with inl e => Some e | inr _ => None end
  = match r2 with inl e => Some e | inr _ => None end.
Proof.
  destruct r1, r2; simpl; try contradiction; [now intros -> | reflexivity].
Qed.

(** An entry under a catalog name does not change how the constructor
    ends. *)
Lemma catalog_entry_failure isNode isValidValue p o v vc qa ci :
  In p createParameters ->
  failure (ConnectionConfig isNode isValidValue
             (VObj (set o (name p) v)) vc qa ci)
  = failure (ConnectionConfig isNode isValidValue (VObj o) vc qa ci).
Proof.
  intros Hp. symmetry. unfold failure.
  apply (outcomes_failure (fun _ _ => True)).
  apply related_ConnectionConfig with (R := sameExcept (name p)).
  - intros a b f Hab Hf. unfold get.
    now rewrite (Hab f (catalog_name_not_field p f Hp Hf)).
  - intros a b f w Hab Hf k Hk. now rewrite !own_set, (Hab k Hk).
  - intros a b Hab. rewrite !overrideParameters_run.
    assert (has a "hasOwnProperty" = has b "hasOwnProperty") as ->.
    { unfold has. rewrite (Hab "hasOwnProperty"); [reflexivity|].
      clear -Hp. simpl in Hp.
      repeat (destruct Hp as [<-|Hp]; [discriminate|]). contradiction. }
    destruct (has b "hasOwnProperty"); simpl; trivial.
  - apply sameExcept_set.
Qed.

(** C3, as the code has it: for a catalog parameter and a value supplied
    under its name, the accessor of the constructed configuration returns
    the supplied value when the parameter is external and its validator
    accepts the value, and the default in every other case; and the entry
    never makes the construction fail: with the entry and without it the
    constructor ends with the same error or with none. *)
Theorem parameter_override isNode isValidValue p o v vc qa ci :
  In p createParameters ->
  (forall r c,
      own o (name p) = Some v ->
      ConnectionConfig isNode isValidValue (VObj o) vc qa ci = (r, inr c) ->
      _getParameterValue c (name p)
      = inr (if external p && validate p v then v else defaultValue p))
  /\ failure (ConnectionConfig isNode isValidValue
                (VObj (set o (name p) v)) vc qa ci)
     = failure (ConnectionConfig isNode isValidValue (VObj o) vc qa ci).
Proof.
  intros Hp. split; [|now apply catalog_entry_failure].
  intros r c Hv H. unfold _getParameterValue.
  rewrite (constructed_parameters _ _ _ _ _ _ _ _ H).
  rewrite (resolveFromCatalog_value o p Hp). simpl.
  unfold has, get. rewrite Hv. reflexivity.
Qed.

Lemma parameter_override_witness :
  In timeoutParameter createParameters
  /\ built (ConnectionConfig true anyTypeName
              (VObj (urlAnd "timeout" (VNum (-5))))
              (VBool false) VUndefined VUndefined)
       (fun c => getTimeout c = inr (VNum 90000)).
Proof.
  split; [now left|].
  unfold built.
  destruct (ConnectionConfig true anyTypeName
              (VObj (urlAnd "timeout" (VNum (-5))))
              (VBool false) VUndefined VUndefined) as [r [e|c]] eqn:E.
  - vm_compute in E. discriminate E.
  - simpl.
    exact (proj1
             (parameter_override true anyTypeName timeoutParameter
                (urlAnd "timeout" (VNum (-5))) (VNum (-5))
                (VBool false) VUndefined VUndefined (or_introl eq_refl))
             r c eq_refl E).
Defined.

(** C3, as stated, fails in its "only if": [resultStreamInterrupts] is not
    external, yet when the caller supplies 3, which is its default, the
    accessor returns a value equal to the supplied one. *)
Lemma parameter_override_counterexample :
  In streamInterruptsParameter createParameters
  /\ own (urlAnd "resultStreamInterrupts" (VNum 3))
       (name streamInterruptsParameter) = Some (VNum 3)
  /\ built (ConnectionConfig true anyTypeName
              (VObj (urlAnd "resultStreamInterrupts" (VNum 3)))
              (VBool false) VUndefined VUndefined)
       (fun c =>
          ~ (_getParameterValue c (name streamInterruptsParameter)
             = inr (VNum 3)
             <-> external streamInterruptsParameter = true
                 /\ validate streamInterruptsParameter (VNum 3) = true)).
Proof.
  split; [right; right; now left|].
  split; [reflexivity|].
  unfold built. vm_compute. intros [H _].
  destruct (H eq_refl) as [Hext _]. discriminate Hext.
Qed.

(** The two examples of the specification: a non-external parameter keeps
    its default whatever is supplied, and so does an external one for a
    value that its validator rejects. *)
Lemma override_examples :
  built (ConnectionConfig true anyTypeName
           (VObj (urlAnd "resultStreamInterrupts" (VNum 99)))
           (VBool false) VUndefined VUndefined)
    (fun c => getResultStreamInterrupts c = inr (VNum 3))
  /\ built (ConnectionConfig true anyTypeName
              (VObj (urlAnd "timeout" (VNum 5000)))
              (VBool false) VUndefined VUndefined)
       (fun c => getTimeout c = inr (VNum 5000)).
Proof. split; vm_compute; reflexivity. Qed.

(** ** Credentials *)

Lemma construct_credentials_fail isNode isValidValue vc qa ci o e :
  truthy vc = true ->
  snd (checkCredentials o) = inl e ->
  construct isNode isValidValue vc qa ci o = (o, inl e).
Proof.
  intros Hon He. unfold construct, bind.
  now rewrite (validateIdentity_on _ _ Hon), He.
Qed.

Lemma credentials_failure isNode isValidValue o vc qa ci e :
  validationOn vc = true ->
  snd (checkCredentials o) = inl e ->
  failure (ConnectionConfig isNode isValidValue (VObj o) vc qa ci) = Some e.
Proof.
  intros Hon He. rewrite <- truthy_effectiveFlag in Hon.
  rewrite ConnectionConfig_object. unfold failure; simpl.
  now rewrite (construct_credentials_fail _ _ _ _ _ _ _ Hon He).
Qed.

Lemma construct_unvalidated isNode isValidValue vc qa ci o :
  truthy vc = false ->
  Util.isString (get o "accessUrl") = true ->
  construct isNode isValidValue vc qa ci o
  = configure isNode isValidValue qa ci o.
Proof.
  intros Hoff Hurl. unfold construct, bind.
  rewrite (validateIdentity_off _ _ Hoff), checkAccessUrl_run.
  destruct (get o "accessUrl"); try discriminate. reflexivity.
Qed.

(** C2, as the code has it.  With credential validation on, the
    construction fails with the missing-field error of the first credential
    that is missing, in the order username, password, account, provided the
    credentials checked before it are strings.  With the flag given and
    false, it succeeds when the access url is a supplied string, the
    optional fields and the client information are absent or valid, and the
    options hold no property named hasOwnProperty (one that does makes the
    call of line 345 throw). *)
Theorem missing_credentials isNode isValidValue o vc qa ci :
  (validationOn vc = true ->
   let failed :=
     failure (ConnectionConfig isNode isValidValue (VObj o) vc qa ci) in
   (Util.exists_ (get o "username") = false ->
    failed = Some (MissingParameterError ERR_CONN_CREATE_MISSING_USERNAME))
   /\ (Util.isString (get o "username") = true ->
       Util.exists_ (get o "password") = false ->
       failed
       = Some (MissingParameterError ERR_CONN_CREATE_MISSING_PASSWORD))
   /\ (Util.isString (get o "username") = true ->
       Util.isString (get o "password") = true ->
       Util.exists_ (get o "account") = false ->
       failed
       = Some (MissingParameterError ERR_CONN_CREATE_MISSING_ACCOUNT)))
  /\ (validationOn vc = false ->
      Util.isString (get o "accessUrl") = true ->
      optionalFieldsValid isNode isValidValue o ci = true ->
      has o "hasOwnProperty" = false ->
      exists c,
        ConnectionConfig isNode isValidValue (VObj o) vc qa ci
        = (VObj o, inr c)).
Proof.
  split.
  - intros Hon failed. unfold failed. repeat split.
    + intros Hu. apply credentials_failure; [assumption|].
      rewrite checkCredentials_run; simpl. now rewrite Hu.
    + intros Hu Hp. apply credentials_failure; [assumption|].
      rewrite checkCredentials_run; simpl.
      destruct (get o "username"); try discriminate. simpl. now rewrite Hp.
    + intros Hu Hp Ha. apply credentials_failure; [assumption|].
      rewrite checkCredentials_run; simpl.
      destruct (get o "username"); try discriminate.
      destruct (get o "password"); try discriminate. simpl. now rewrite Ha.
  - intros Hoff Hurl Hopt Hno. rewrite <- truthy_effectiveFlag in Hoff.
    rewrite ConnectionConfig_object.
    rewrite (construct_unvalidated _ _ _ _ _ _ Hoff Hurl).
    destruct (configure_succeeds isNode isValidValue qa ci o Hopt Hno)
      as [c Hc].
    exists c. now rewrite Hc.
Qed.

Lemma missing_credentials_witness :
  failure (ConnectionConfig true anyTypeName
             (VObj [("username", VStr "user"); ("account", VStr "abc")])
             VUndefined VUndefined VUndefined)
  = Some (MissingParameterError ERR_CONN_CREATE_MISSING_PASSWORD)
  /\ exists c,
       ConnectionConfig true anyTypeName
         (VObj (urlAnd "warehouse" (VStr "wh"))) (VBool false)
         VUndefined VUndefined
       = (VObj (urlAnd "warehouse" (VStr "wh")), inr c).
Proof.
  split.
  - exact (proj1 (proj2
             (proj1 (missing_credentials true anyTypeName
                       [("username", VStr "user"); ("account", VStr "abc")]
                       VUndefined VUndefined VUndefined) eq_refl))
             eq_refl eq_refl).
  - exact (proj2 (missing_credentials true anyTypeName
                    (urlAnd "warehouse" (VStr "wh")) (VBool false)
                    VUndefined VUndefined)
             eq_refl eq_refl eq_refl eq_refl).
Defined.

(** C2, as stated, fails: the options below miss the password, credential
    validation is on, and the construction fails with the invalid-username
    error, the username being a number; that is no missing-field error.
    And with the flag false, a string access url and nothing else but a
    property named hasOwnProperty, the construction does not succeed: it
    throws a TypeError. *)
Lemma missing_credentials_counterexample :
  let o := [("username", VNum 5); ("account", VStr "abc")] in
  let failed :=
    failure (ConnectionConfig true anyTypeName (VObj o)
               VUndefined VUndefined VUndefined) in
  let shadowed := urlAnd "hasOwnProperty" (VNum 5) in
  (validationOn VUndefined = true
   /\ Util.exists_ (get o "password") = false
   /\ failed
      = Some (InvalidParameterError ERR_CONN_CREATE_INVALID_USERNAME
                VUndefined)
   /\ failed
      <> Some (MissingParameterError ERR_CONN_CREATE_MISSING_PASSWORD))
  /\ (validationOn (VBool false) = false
      /\ Util.isString (get shadowed "accessUrl") = true
      /\ optionalFieldsValid true anyTypeName shadowed VUndefined = true
      /\ result (ConnectionConfig true anyTypeName (VObj shadowed)
                   (VBool false) VUndefined VUndefined)
         = inl TypeError).
Proof. vm_compute. repeat split; discriminate. Qed.

(** ** The proxy *)

Lemma proxy_failure isValidValue o o1 vc qa ci e :
  validateIdentity (effectiveFlag vc) o = (o1, inr tt) ->
  snd (resolveProxy true o1) = inl e ->
  failure (ConnectionConfig true isValidValue (VObj o) vc qa ci) = Some e.
Proof.
  intros Hid He. rewrite ConnectionConfig_object.
  unfold failure, construct; cbn [snd].
  rewrite (bind_ok _ _ _ _ _ Hid).
  pose proof (stateless_resolveProxy true o1) as Hs.
  destruct (resolveProxy true o1) as [o2 res] eqn:E.
  simpl in *. subst.
  now rewrite (configure_proxy_fails _ _ _ _ _ _ E).
Qed.

(** C5, as the code has it.  When the construction reaches the proxy step,
    that is when the identity stage passes, then in node: a port without a
    host fails with the missing-host error; a host that is not a string
    fails with the invalid-host error, whether or not a port is given; a
    string host without a port fails with the missing-port error; a string
    host with a port that is not a number fails with the invalid-port error.
    Outside node the proxy step raises no error and gives no settings,
    whatever the proxy fields are, and [getProxy()] is undefined. *)
Theorem proxy_fields isValidValue o o1 vc qa ci :
  validateIdentity (effectiveFlag vc) o = (o1, inr tt) ->
  let proxyHost := get o "proxyHost" in
  let proxyPort := get o "proxyPort" in
  let failed :=
    failure (ConnectionConfig true isValidValue (VObj o) vc qa ci) in
  (Util.exists_ proxyHost = false -> Util.exists_ proxyPort = true ->
   failed = Some (MissingParameterError ERR_CONN_CREATE_MISSING_PROXY_HOST))
  /\ (Util.exists_ proxyHost = true -> Util.isString proxyHost = false ->
      failed
      = Some (InvalidParameterError ERR_CONN_CREATE_INVALID_PROXY_HOST
                VUndefined))
  /\ (Util.isString proxyHost = true -> Util.exists_ proxyPort = false ->
      failed
      = Some (MissingParameterError ERR_CONN_CREATE_MISSING_PROXY_PORT))
  /\ (Util.isString proxyHost = true -> Util.exists_ proxyPort = true ->
      Util.isNumber proxyPort = false ->
      failed
      = Some (InvalidParameterError ERR_CONN_CREATE_INVALID_PROXY_PORT
                VUndefined))
  /\ resolveProxy false o1 = (o1, inr VUndefined)
  /\ (forall r c,
         ConnectionConfig false isValidValue (VObj o) vc qa ci = (r, inr c) ->
         getProxy c = VUndefined).
Proof.
  intros Hid proxyHost proxyPort failed.
  assert (get o1 "proxyHost" = proxyHost) as Hh
    by (apply get_frame, (validateIdentity_frame _ _ _ _ Hid); discriminate).
  assert (get o1 "proxyPort" = proxyPort) as Hp
    by (apply get_frame, (validateIdentity_frame _ _ _ _ Hid); discriminate).
  assert (forall e,
             snd (resolveProxy true o1) = inl e -> failed = Some e) as Hfail
    by (intros e He; now apply (proxy_failure _ _ _ _ _ _ _ Hid)).
  rewrite resolveProxy_run in Hfail. cbv zeta in Hfail. cbn [snd] in Hfail.
  rewrite Hh, Hp in Hfail.
  split; [|split; [|split; [|split; [|split]]]].
  - intros H1 H2. apply Hfail. rewrite H1, H2. reflexivity.
  - intros H1 H2. apply Hfail. rewrite H1, H2. reflexivity.
  - intros H1 H2. apply Hfail. rewrite H1, H2.
    destruct proxyHost; try discriminate. reflexivity.
  - intros H1 H2 H3. apply Hfail. rewrite H1, H2, H3.
    destruct proxyHost; try discriminate. reflexivity.
  - now rewrite resolveProxy_run.
  - intros r c H.
    apply constructed_identity in H as (o' & _ & _ & _ & _ & _ & _ & Hr).
    rewrite resolveProxy_run in Hr. simpl in Hr.
    unfold getProxy. now inversion Hr.
Qed.

Lemma proxy_fields_witness :
  failure (ConnectionConfig true anyTypeName
             (VObj (urlAnd "proxyHost" (VStr "proxy.example.com")))
             (VBool false) VUndefined VUndefined)
  = Some (MissingParameterError ERR_CONN_CREATE_MISSING_PROXY_PORT)
  /\ built (ConnectionConfig false anyTypeName
              (VObj (urlAnd "proxyHost" (VStr "proxy.example.com")))
              (VBool false) VUndefined VUndefined)
       (fun c => getProxy c = VUndefined).
Proof.
  pose proof (proxy_fields anyTypeName
                (urlAnd "proxyHost" (VStr "proxy.example.com"))
                (urlAnd "proxyHost" (VStr "proxy.example.com"))
                (VBool false) VUndefined VUndefined eq_refl)
    as (_ & _ & Hport & _ & _ & Hout).
  split.
  - exact (Hport eq_refl eq_refl).
  - unfold built.
    destruct (ConnectionConfig false anyTypeName
                (VObj (urlAnd "proxyHost" (VStr "proxy.example.com")))
                (VBool false) VUndefined VUndefined) as [r [e|c]] eqn:E.
    + vm_compute in E. discriminate E.
    + simpl. exact (Hout r c eq_refl).
Defined.

(** C5, as stated, fails: in node, with the identity stage passed, a proxy
    host that is a number and no proxy port (so exactly one of the two is
    supplied, and the port is the absent one) make the construction fail
    with the invalid-host error, not with the missing-port error. *)
Lemma proxy_fields_counterexample :
  let o := urlAnd "proxyHost" (VNum 5) in
  let failed :=
    failure (ConnectionConfig true anyTypeName (VObj o) (VBool false)
               VUndefined VUndefined) in
  validateIdentity (effectiveFlag (VBool false)) o = (o, inr tt)
  /\ Util.exists_ (get o "proxyHost") = true
  /\ Util.exists_ (get o "proxyPort") = false
  /\ failed
     = Some (InvalidParameterError ERR_CONN_CREATE_INVALID_PROXY_HOST
               VUndefined)
  /\ failed
     <> Some (MissingParameterError ERR_CONN_CREATE_MISSING_PROXY_PORT).
Proof. vm_compute. repeat split; discriminate. Qed.

(** * Further properties of the code *)

(** ** The second stage in one expression *)

Lemma bind_checkOptional {B} v test code (f : unit -> M B) o :
  bind (checkOptional v test code) f o
  = if invalid test v
    then (o, inl (InvalidParameterError code VUndefined))
    else f tt o.
Proof.
  unfold bind, checkOptional, invalid, Errors.checkArgumentValid.
  destruct (Util.exists_ v), (test v); reflexivity.
Qed.

Lemma bind_resolveProxy {B} isNode (f : JsValue -> M B) o :
  bind (resolveProxy isNode) f o
  = match proxyOutcome isNode o with
    | inl e => (o, inl e)
    | inr settings => f settings o
    end.
Proof.
  assert (resolveProxy isNode o = (o, proxyOutcome isNode o)) as E
    by apply resolveProxy_run.
  unfold bind. rewrite E.
  destruct (proxyOutcome isNode o); reflexivity.
Qed.

Lemma bind_checkFetchAsString {B} isValidValue v (f : unit -> M B) o :
  bind (checkFetchAsString isValidValue v) f o
  = if invalid Util.isArray v then
      (o, inl (InvalidParameterError ERR_CONN_CREATE_INVALID_FETCH_AS_STRING
                 VUndefined))
    else if Util.exists_ v && negb (findInvalidValue isValidValue v =? -1)
    then
      (o, inl (InvalidParameterError
                 ERR_CONN_CREATE_INVALID_FETCH_AS_STRING_VALUES
                 (element v (findInvalidValue isValidValue v))))
    else f tt o.
Proof.
  unfold bind, checkFetchAsString, invalid, Errors.checkArgumentValid.
  destruct (Util.exists_ v); simpl; [|reflexivity].
  destruct (Util.isArray v); simpl; [|reflexivity].
  destruct (findInvalidValue isValidValue v =? -1); reflexivity.
Qed.

Lemma bind_checkClientInfo {B} ci (f : JsValue * JsValue -> M B) o :
  bind (checkClientInfo ci) f o
  = if negb (clientInfoValid ci) then (o, inl InternalAssertError)
    else f (if Util.exists_ ci then get_prop ci "version" else VUndefined,
            if Util.exists_ ci then get_prop ci "environment"
            else VUndefined) o.
Proof.
  unfold bind, checkClientInfo, clientInfoValid, Errors.assertInternal.
  destruct (Util.exists_ ci); simpl; [|reflexivity].
  destruct (Util.isObject ci); simpl; [|reflexivity].
  destruct (Util.isString (get_prop ci "version")); simpl; [|reflexivity].
  destruct (Util.isObject (get_prop ci "environment")); reflexivity.
Qed.

(** The second stage never touches the options, and ends as
    [configureOutcome] says. *)
Lemma configure_run isNode isValidValue qa ci o :
  configure isNode isValidValue qa ci o
  = (o, configureOutcome isNode isValidValue qa ci o).
Proof.
  unfold configure, configureOutcome.
  rewrite bind_resolveProxy.
  destruct (proxyOutcome isNode o) as [e|settings]; [reflexivity|].
  rewrite !bind_read.
  rewrite bind_checkOptional.
  destruct (invalid Util.isString (get o "warehouse")); [reflexivity|].
  rewrite bind_checkOptional.
  destruct (invalid Util.isString (get o "database")); [reflexivity|].
  rewrite bind_checkOptional.
  destruct (invalid Util.isString (get o "schema")); [reflexivity|].
  rewrite bind_checkOptional.
  destruct (invalid Util.isString (get o "role")); [reflexivity|].
  rewrite bind_read, bind_checkOptional.
  destruct (invalid Util.isBoolean (get o "streamResult")); [reflexivity|].
  rewrite bind_read, bind_checkFetchAsString. cbv zeta.
  destruct (invalid Util.isArray (get o "fetchAsString")); [reflexivity|].
  destruct (Util.exists_ (get o "fetchAsString")
            && negb (findInvalidValue isValidValue (get o "fetchAsString")
                     =? -1)); [reflexivity|].
  rewrite bind_checkClientInfo.
  destruct (negb (clientInfoValid ci)); [reflexivity|].
  rewrite !bind_read, bind_snapshot. unfold bind, lift.
  rewrite overrideParameters_run.
  destruct (has o "hasOwnProperty"); reflexivity.
Qed.

(** ** The first stage in one expression *)

Lemma validateIdentity_run vc o :
  validateIdentity vc o =
  if truthy vc then
    match snd (checkCredentials o) with
    | inl e => (o, inl e)
    | inr _ =>
        if regionRejected (afterSplit o) then
          (afterSplit o,
           inl (InvalidParameterError ERR_CONN_CREATE_INVALID_REGION
                  VUndefined))
        else checkAccessUrl (afterDerive (afterSplit o))
    end
  else checkAccessUrl o.
Proof.
  destruct (truthy vc) eqn:Ev.
  - rewrite (validateIdentity_on _ _ Ev).
    destruct (snd (checkCredentials o)); [reflexivity|].
    rewrite deriveAccessUrl_run. unfold regionRejected, invalid.
    rewrite andb_assoc.
    destruct (negb (Util.exists_ (get (afterSplit o) "accessUrl"))
              && Util.exists_ (get (afterSplit o) "region")
              && negb (Util.isString (get (afterSplit o) "region")));
      reflexivity.
  - apply (validateIdentity_off _ _ Ev).
Qed.

Lemma construct_run isNode isValidValue vc qa ci o :
  construct isNode isValidValue vc qa ci o
  = match validateIdentity vc o with
    | (s, inl e) => (s, inl e)
    | (s, inr _) => (s, configureOutcome isNode isValidValue qa ci s)
    end.
Proof.
  unfold construct, bind.
  destruct (validateIdentity vc o) as [s [e|u]]; [reflexivity|].
  apply configure_run.
Qed.

(** The first stage passes exactly on the options that [identityValid]
    accepts. *)
Lemma validateIdentity_passes vc o :
  snd (validateIdentity (effectiveFlag vc) o) = inr tt
  <-> identityValid vc o = true.
Proof.
  rewrite validateIdentity_run, truthy_effectiveFlag. unfold identityValid.
  destruct (validationOn vc).
  - rewrite checkCredentials_run. cbn [snd].
    destruct (get o "username") eqn:Eu; simpl;
      try (split; discriminate).
    destruct (get o "password") eqn:Ep; simpl;
      try (split; discriminate).
    destruct (get o "account") as [| | | |a| |] eqn:Ea; simpl;
      try (split; discriminate).
    unfold regionRejected.
    rewrite get_afterSplit_accessUrl, (get_afterSplit_region o a Ea).
    rewrite checkAccessUrl_run. cbn [snd].
    rewrite get_afterDerive_accessUrl, get_afterSplit_accessUrl.
    destruct (get o "accessUrl") eqn:Eurl; simpl;
      try (split; discriminate); try (split; reflexivity);
      destruct (splits a); simpl; try (split; reflexivity);
      destruct (invalid Util.isString (get o "region")); simpl;
      split; reflexivity || discriminate.
  - rewrite checkAccessUrl_run. cbn [snd].
    destruct (get o "accessUrl"); simpl; split; reflexivity || discriminate.
Qed.

(** ** What the constructor does to the caller's options *)

Lemma identity_state vc o :
  fst (validateIdentity vc o) = o
  \/ fst (validateIdentity vc o) = afterSplit o
  \/ fst (validateIdentity vc o) = afterDerive (afterSplit o).
Proof.
  rewrite validateIdentity_run.
  destruct (truthy vc).
  - destruct (snd (checkCredentials o)); [now left|].
    destruct (regionRejected (afterSplit o)); [right; now left|].
    rewrite checkAccessUrl_run. right; now right.
  - rewrite checkAccessUrl_run. now left.
Qed.

Lemma construct_state isNode isValidValue vc qa ci o :
  fst (construct isNode isValidValue vc qa ci o)
  = fst (validateIdentity vc o).
Proof.
  rewrite construct_run.
  destruct (validateIdentity vc o) as [s [e|u]]; reflexivity.
Qed.

(** X1. Whatever the outcome, success or error, the constructor leaves
    every property of the caller's options other than [account], [region]
    and [accessUrl] as it was: same presence, same value. *)
Theorem options_frame isNode isValidValue o vc qa ci k :
  k <> "account" -> k <> "region" -> k <> "accessUrl" ->
  exists o',
    fst (ConnectionConfig isNode isValidValue (VObj o) vc qa ci) = VObj o'
    /\ own o' k = own o k.
Proof.
  intros H1 H2 H3. rewrite ConnectionConfig_object. cbn [fst].
  eexists. split; [reflexivity|].
  rewrite construct_state.
  destruct (identity_state (effectiveFlag vc) o) as [->|[->| ->]].
  - reflexivity.
  - now apply own_afterSplit.
  - now rewrite own_afterDerive, own_afterSplit.
Qed.

Lemma options_frame_witness :
  exists o',
    fst (ConnectionConfig true anyTypeName
           (VObj (credentials "abc.eu-central-1"
                  ++ [("warehouse", VStr "wh")]))
           VUndefined VUndefined VUndefined) = VObj o'
    /\ own o' "warehouse" = Some (VStr "wh").
Proof.
  exact (options_frame true anyTypeName
           (credentials "abc.eu-central-1" ++ [("warehouse", VStr "wh")])%list
           VUndefined VUndefined VUndefined "warehouse"
           ltac:(discriminate) ltac:(discriminate) ltac:(discriminate)).
Defined.

(** X2. With credential validation off the constructor does not write to
    the options at all, whatever the outcome; and on success the account is
    stored as supplied, dotted or not, and of whatever type. *)
Theorem unvalidated_options_untouched isNode isValidValue o vc qa ci :
  validationOn vc = false ->
  fst (ConnectionConfig isNode isValidValue (VObj o) vc qa ci) = VObj o
  /\ (forall c,
         result (ConnectionConfig isNode isValidValue (VObj o) vc qa ci)
         = inr c ->
         account c = get o "account").
Proof.
  intros Hoff. rewrite <- truthy_effectiveFlag in Hoff.
  rewrite ConnectionConfig_object. unfold result. cbn [fst snd].
  rewrite construct_run, validateIdentity_run, Hoff, checkAccessUrl_run.
  split.
  - destruct (if negb (Util.exists_ (get o "accessUrl")) then _ else _);
      reflexivity.
  - intros c.
    destruct (if negb (Util.exists_ (get o "accessUrl")) then _ else _);
      cbn [snd]; [discriminate|].
    unfold configureOutcome.
    destruct (proxyOutcome isNode o); [discriminate|].
    repeat match goal with
           | |- (if ?b then _ else _) = _ -> _ =>
               destruct b; [discriminate|]
           end.
    intros H; inversion H; reflexivity.
Qed.

Lemma unvalidated_options_untouched_witness :
  fst (ConnectionConfig true anyTypeName
         (VObj (urlAnd "account" (VStr "abc.eu-central-1")))
         (VBool false) VUndefined VUndefined)
  = VObj (urlAnd "account" (VStr "abc.eu-central-1"))
  /\ built (ConnectionConfig true anyTypeName
              (VObj (urlAnd "account" (VStr "abc.eu-central-1")))
              (VBool false) VUndefined VUndefined)
       (fun c => account c = VStr "abc.eu-central-1").
Proof.
  pose proof (unvalidated_options_untouched true anyTypeName
                (urlAnd "account" (VStr "abc.eu-central-1"))
                (VBool false) VUndefined VUndefined eq_refl) as [Hs Hc].
  split; [exact Hs|].
  unfold built. unfold result in Hc.
  destruct (snd (ConnectionConfig true anyTypeName
                   (VObj (urlAnd "account" (VStr "abc.eu-central-1")))
                   (VBool false) VUndefined VUndefined)) as [e|c] eqn:E.
  - vm_compute in E. discriminate E.
  - exact (Hc c eq_refl).
Defined.

(** X3. A successful construction stores the username and the password as
    supplied.  With credential validation on both are strings, and the
    stored account is a string that would not split again: it is the
    supplied account, or its part before the first dot. *)
Theorem stored_credentials isNode isValidValue o vc qa ci r c :
  ConnectionConfig isNode isValidValue (VObj o) vc qa ci = (r, inr c) ->
  username c = get o "username"
  /\ password c = get o "password"
  /\ (validationOn vc = true ->
      Util.isString (username c) = true
      /\ Util.isString (password c) = true
      /\ exists a,
           get o "account" = VStr a
           /\ account c = VStr (if splits a then beforeDot a else a)
           /\ splits (if splits a then beforeDot a else a) = false).
Proof.
  intros H.
  apply constructed_identity in H
    as (o' & _ & Hid & Hu & Hp & _ & Hacc & _).
  pose proof (validateIdentity_frame _ _ _ "username" Hid
                ltac:(discriminate) ltac:(discriminate) ltac:(discriminate))
    as Fu.
  pose proof (validateIdentity_frame _ _ _ "password" Hid
                ltac:(discriminate) ltac:(discriminate) ltac:(discriminate))
    as Fp.
  apply get_frame in Fu, Fp. rewrite Hu, Hp, Fu, Fp.
  split; [reflexivity|]. split; [reflexivity|].
  intros Hon.
  apply validateIdentity_inv in Hid
    as (_ & [(Hoff & _)|(_ & Hsu & Hsp & Hsa & ->)]).
  - rewrite truthy_effectiveFlag in Hoff. congruence.
  - split; [assumption|]. split; [assumption|].
    destruct (get o "account") as [| | | |a| |] eqn:Ea; try discriminate.
    exists a. split; [reflexivity|]. split.
    + rewrite Hacc.
      rewrite (get_frame (afterSplit o) (afterDerive (afterSplit o)))
        by (apply own_afterDerive; discriminate).
      now apply get_afterSplit_account.
    + destruct (splits a) eqn:Es; [now apply splits_beforeDot | exact Es].
Qed.

Lemma stored_credentials_witness :
  built (ConnectionConfig true anyTypeName
           (VObj (credentials "abc.eu-central-1"))
           VUndefined VUndefined VUndefined)
    (fun c =>
       username c = VStr "user" /\ password c = VStr "secret"
       /\ account c = VStr "abc").
Proof.
  unfold built.
  destruct (ConnectionConfig true anyTypeName
              (VObj (credentials "abc.eu-central-1"))
              VUndefined VUndefined VUndefined) as [r [e|c]] eqn:E.
  - vm_compute in E. discriminate E.
  - simpl.
    destruct (stored_credentials _ _ _ _ _ _ _ _ E) as (Hu & Hp & Hon).
    destruct (Hon eq_refl) as (_ & _ & a & Ha & Hacc & _).
    injection Ha as <-.
    repeat split; assumption.
Defined.

(** X4. The options object that a successful construction leaves behind is
    a fixed point: constructing again from it, with the same arguments,
    leaves it unchanged and gives the same configuration. *)
Theorem reconstruction_is_stable isNode isValidValue o vc qa ci r c :
  ConnectionConfig isNode isValidValue (VObj o) vc qa ci = (r, inr c) ->
  ConnectionConfig isNode isValidValue r vc qa ci = (r, inr c).
Proof.
  intros H. apply ConnectionConfig_inv in H as (o' & -> & Hid & Hc).
  assert (validateIdentity (effectiveFlag vc) o' = (o', inr tt)) as Hid'.
  { pose proof Hid as Hinv.
    apply validateIdentity_inv in Hinv
      as (Hurl & [(Hoff & ->)|(Hon & Hsu & Hsp & Hsa & Heq)]).
    - exact Hid.
    - destruct (get o "account") as [| | | |a| |] eqn:Ea; try discriminate.
      assert (get o' "account"
              = VStr (if splits a then beforeDot a else a)) as Ha'.
      { rewrite Heq.
        rewrite (get_frame (afterSplit o) (afterDerive (afterSplit o)))
          by (apply own_afterDerive; discriminate).
        now apply get_afterSplit_account. }
      assert (splits (if splits a then beforeDot a else a) = false) as Hs'
        by (destruct (splits a) eqn:Es;
            [now apply splits_beforeDot | exact Es]).
      assert (Util.exists_ (get o' "accessUrl") = true) as Hex
        by (destruct (get o' "accessUrl"); discriminate || reflexivity).
      rewrite validateIdentity_run, Hon, checkCredentials_run. cbn [snd].
      rewrite (get_frame o o' "username"), (get_frame o o' "password")
        by (apply (validateIdentity_frame _ _ _ _ Hid); discriminate).
      rewrite Ha'.
      destruct (get o "username"); try discriminate.
      destruct (get o "password"); try discriminate.
      cbn [Util.exists_ Util.isString negb].
      rewrite (afterSplit_undotted o' _ Ha' Hs').
      unfold regionRejected, afterDerive. rewrite Hex. cbn [negb andb].
      rewrite checkAccessUrl_run, Hex, Hurl. reflexivity. }
  rewrite ConnectionConfig_object, construct_run, Hid'. cbn [fst snd].
  rewrite configure_run in Hc. inversion Hc as [Hc']. now rewrite Hc'.
Qed.

Lemma reconstruction_is_stable_witness :
  let first :=
    ConnectionConfig true anyTypeName
      (VObj (credentials "abc.us-west-2")) VUndefined VUndefined VUndefined in
  ConnectionConfig true anyTypeName (fst first)
    VUndefined VUndefined VUndefined
  = first.
Proof.
  intros first.
  destruct first as [r [e|c]] eqn:E.
  - vm_compute in E. discriminate E.
  - exact (reconstruction_is_stable true anyTypeName _ _ _ _ _ _ E).
Defined.

(** ** When the region matters *)

Lemma sameExcept_get k (o1 o2 : object) k' :
  sameExcept k o1 o2 -> k' <> k -> get o1 k' = get o2 k'.
Proof. intros H Hk. unfold get. now rewrite (H k' Hk). Qed.

Lemma sameExcept_afterSplit o1 o2 :
  sameExcept "region" o1 o2 ->
  sameExcept "region" (afterSplit o1) (afterSplit o2).
Proof.
  intros H. unfold afterSplit.
  rewrite (sameExcept_get _ _ _ "account" H) by discriminate.
  destruct (splits (text (get o2 "account"))); [|exact H].
  intros k Hk. now rewrite !own_set, (H k Hk).
Qed.

Lemma sameForConfigure_intro o1 o2 :
  (forall k, k <> "region" -> k <> "accessUrl" -> own o1 k = own o2 k) ->
  get o1 "accessUrl" = get o2 "accessUrl" ->
  sameForConfigure o1 o2.
Proof.
  intros H Hurl. split; [|split].
  - intros f Hf. simpl in Hf.
    repeat (destruct Hf as [<-|Hf]); try contradiction;
      try exact Hurl; unfold get; rewrite H; reflexivity || discriminate.
  - intros p Hp. apply H.
    + apply not_eq_sym, (catalog_name_not_field p "region" Hp).
      simpl. tauto.
    + apply not_eq_sym, (catalog_name_not_field p "accessUrl" Hp).
      simpl. tauto.
  - unfold has. rewrite H; reflexivity || discriminate.
Qed.

(** The second stage ends the same way on two objects that it cannot tell
    apart. *)
Lemma configureOutcome_ext isNode isValidValue qa ci o1 o2 :
  sameForConfigure o1 o2 ->
  configureOutcome isNode isValidValue qa ci o1
  = configureOutcome isNode isValidValue qa ci o2.
Proof.
  intros (Hf & Hp & Hh). unfold configureOutcome, proxyOutcome.
  rewrite Hh, !overrideParametersPlain_catalog.
  rewrite (resolveFromCatalog_ext o1 o2 Hp).
  rewrite (Hf "proxyHost"), (Hf "proxyPort"), (Hf "warehouse"),
    (Hf "database"), (Hf "schema"), (Hf "role"), (Hf "streamResult"),
    (Hf "fetchAsString"), (Hf "username"), (Hf "password"),
    (Hf "accessUrl"), (Hf "account") by (simpl; tauto).
  reflexivity.
Qed.

Lemma derivedUrl_subdomain a r1 r2 :
  subdomain r1 = subdomain r2 -> derivedUrl a r1 = derivedUrl a r2.
Proof. unfold derivedUrl. now intros ->. Qed.

(** Two options objects that differ at most in their region end the
    constructor the same way, provided that, where the region is looked at
    (validation on, no access url, an account that does not split), the two
    regions are rejected alike and give the same subdomain. *)
Lemma region_equivalence isNode isValidValue o1 o2 vc qa ci :
  sameExcept "region" o1 o2 ->
  (validationOn vc = true ->
   Util.exists_ (get o1 "accessUrl") = false ->
   splits (text (get o1 "account")) = false ->
   invalid Util.isString (get o1 "region")
   = invalid Util.isString (get o2 "region")
   /\ subdomain (get o1 "region") = subdomain (get o2 "region")) ->
  result (ConnectionConfig isNode isValidValue (VObj o1) vc qa ci)
  = result (ConnectionConfig isNode isValidValue (VObj o2) vc qa ci).
Proof.
  intros H Hreg. rewrite !ConnectionConfig_object. unfold result.
  cbn [snd]. rewrite !construct_run, !validateIdentity_run.
  rewrite truthy_effectiveFlag.
  assert (forall k, k <> "region" -> get o1 k = get o2 k) as G
    by (intros k Hk; now apply (sameExcept_get "region")).
  destruct (validationOn vc).
  - rewrite !checkCredentials_run. cbn [snd].
    rewrite (G "username"), (G "password") by discriminate.
    pose proof (G "account" ltac:(discriminate)) as Ga.
    destruct (get o2 "username"); simpl; try reflexivity.
    destruct (get o2 "password"); simpl; try reflexivity.
    destruct (get o1 "account") as [| | | |a| |] eqn:Ea; rewrite <- Ga;
      simpl; try reflexivity.
    symmetry in Ga.
    pose proof (sameExcept_afterSplit _ _ H) as Hs.
    assert (get (afterSplit o1) "accessUrl" = get (afterSplit o2) "accessUrl")
      as Hurl by (apply (sameExcept_get "region"); [exact Hs|discriminate]).
    assert (Util.exists_ (get (afterSplit o1) "accessUrl") = false ->
            invalid Util.isString (get (afterSplit o1) "region")
            = invalid Util.isString (get (afterSplit o2) "region")
            /\ subdomain (get (afterSplit o1) "region")
               = subdomain (get (afterSplit o2) "region")) as Hr.
    { intros Hno. rewrite get_afterSplit_accessUrl in Hno.
      rewrite (get_afterSplit_region o1 a Ea), (get_afterSplit_region o2 a Ga).
      destruct (splits a) eqn:Es; [now split|].
      apply Hreg; [reflexivity | exact Hno | ].
      first [exact Es | now rewrite Ea]. }
    unfold regionRejected. rewrite <- Hurl.
    destruct (Util.exists_ (get (afterSplit o1) "accessUrl")) eqn:Ex.
    + cbn [negb andb]. rewrite !checkAccessUrl_run. cbn [snd].
      rewrite !get_afterDerive_accessUrl, <- Hurl, Ex.
      destruct (negb (Util.exists_ (get (afterSplit o1) "accessUrl")));
        [reflexivity|].
      destruct (negb (Util.isString (get (afterSplit o1) "accessUrl")));
        [reflexivity|].
      cbn [snd]. apply configureOutcome_ext. apply sameForConfigure_intro.
      * intros k K1 K2. rewrite !own_afterDerive by assumption.
        now apply Hs.
      * now rewrite !get_afterDerive_accessUrl, <- Hurl, Ex.
    + destruct (Hr eq_refl) as [Hinv Hsub]. cbn [negb andb].
      rewrite <- Hinv.
      destruct (invalid Util.isString (get (afterSplit o1) "region"));
        [reflexivity|].
      assert (get (afterDerive (afterSplit o1)) "accessUrl"
              = get (afterDerive (afterSplit o2)) "accessUrl") as Hd.
      { rewrite !get_afterDerive_accessUrl, <- Hurl, Ex.
        rewrite (sameExcept_get "region" _ _ "account" Hs) by discriminate.
        now rewrite (derivedUrl_subdomain _ _ _ Hsub). }
      rewrite !checkAccessUrl_run. cbn [snd]. rewrite <- Hd.
      destruct (negb (Util.exists_
                        (get (afterDerive (afterSplit o1)) "accessUrl")));
        [reflexivity|].
      destruct (negb (Util.isString
                        (get (afterDerive (afterSplit o1)) "accessUrl")));
        [reflexivity|].
      cbn [snd]. apply configureOutcome_ext. apply sameForConfigure_intro.
      * intros k K1 K2. rewrite !own_afterDerive by assumption.
        now apply Hs.
      * exact Hd.
  - rewrite !checkAccessUrl_run. cbn [snd].
    rewrite (G "accessUrl") by discriminate.
    destruct (negb (Util.exists_ (get o2 "accessUrl"))); [reflexivity|].
    destruct (negb (Util.isString (get o2 "accessUrl"))); [reflexivity|].
    cbn [snd]. apply configureOutcome_ext. apply sameForConfigure_intro.
    + intros k K1 _. now apply H.
    + apply G. discriminate.
Qed.

(** X5. The region is not looked at when credential validation is off, when
    an access url is supplied, or when the account brings its own region:
    two options objects that differ at most in their region, even one
    holding a region that is not a string, then end the constructor the
    same way (the same error, or the same configuration). *)
Theorem region_ignored isNode isValidValue o1 o2 vc qa ci :
  sameExcept "region" o1 o2 ->
  validationOn vc = false
  \/ Util.exists_ (get o1 "accessUrl") = true
  \/ splits (text (get o1 "account")) = true ->
  result (ConnectionConfig isNode isValidValue (VObj o1) vc qa ci)
  = result (ConnectionConfig isNode isValidValue (VObj o2) vc qa ci).
Proof.
  intros H Hor. apply region_equivalence; [exact H|].
  intros Hon Hno Hs. destruct Hor as [Hoff|[Hurl|Hsp]]; congruence.
Qed.

Lemma region_ignored_witness :
  result (ConnectionConfig true anyTypeName
            (VObj (credentials "abc"
                   ++ [("accessUrl", VStr "https://host.example.com")]))
            VUndefined VUndefined VUndefined)
  = result (ConnectionConfig true anyTypeName
              (VObj (credentials "abc"
                     ++ [("accessUrl", VStr "https://host.example.com");
                         ("region", VNum 5)]))
              VUndefined VUndefined VUndefined).
Proof.
  apply (region_ignored true anyTypeName
           (credentials "abc"
            ++ [("accessUrl", VStr "https://host.example.com")])%list
           (credentials "abc"
            ++ [("accessUrl", VStr "https://host.example.com");
                ("region", VNum 5)])%list
           VUndefined VUndefined VUndefined).
  - apply (sameExcept_set
             (credentials "abc"
              ++ [("accessUrl", VStr "https://host.example.com")])%list
             "region" (VNum 5)).
  - right; left; reflexivity.
Defined.

(** X6. The region "us-west-2" is the default: options that hold it end the
    constructor the same way as options that differ from them only in
    holding no region. *)
Theorem us_west_2_is_default isNode isValidValue o1 o2 vc qa ci :
  sameExcept "region" o1 o2 ->
  Util.exists_ (get o1 "region") = false ->
  get o2 "region" = VStr "us-west-2" ->
  result (ConnectionConfig isNode isValidValue (VObj o1) vc qa ci)
  = result (ConnectionConfig isNode isValidValue (VObj o2) vc qa ci).
Proof.
  intros H H1 H2. apply region_equivalence; [exact H|].
  intros _ _ _. rewrite H2. unfold invalid. rewrite H1.
  destruct (get o1 "region"); try discriminate; split; reflexivity.
Qed.

Lemma us_west_2_is_default_witness :
  result (ConnectionConfig true anyTypeName (VObj (credentials "abc"))
            VUndefined VUndefined VUndefined)
  = result (ConnectionConfig true anyTypeName
              (VObj (credentials "abc" ++ [("region", VStr "us-west-2")]))
              VUndefined VUndefined VUndefined).
Proof.
  apply (us_west_2_is_default true anyTypeName (credentials "abc")
           (credentials "abc" ++ [("region", VStr "us-west-2")])%list
           VUndefined VUndefined VUndefined).
  - apply (sameExcept_set (credentials "abc") "region" (VStr "us-west-2")).
  - reflexivity.
  - reflexivity.
Defined.

(** X7. With credential validation on, string credentials and no access
    url, deriving the access url for the region "us-west-2", supplied or
    split off the account, overwrites the region of the caller's options
    with the empty string, whether the construction then succeeds or fails
    in a later check. *)
Theorem us_west_2_region_erased isNode isValidValue o vc qa ci a :
  validationOn vc = true ->
  Util.isString (get o "username") = true ->
  Util.isString (get o "password") = true ->
  get o "account" = VStr a ->
  Util.exists_ (get o "accessUrl") = false ->
  (if splits a then VStr (afterDot a) else get o "region")
  = VStr "us-west-2" ->
  get_prop (fst (ConnectionConfig isNode isValidValue (VObj o) vc qa ci))
    "region"
  = VStr "".
Proof.
  intros Hon Hu Hp Ha Hno Hreg.
  rewrite ConnectionConfig_object. cbn [fst get_prop].
  rewrite construct_state, validateIdentity_run, truthy_effectiveFlag, Hon.
  rewrite checkCredentials_run. cbn [snd]. rewrite Ha.
  destruct (get o "username"); try discriminate Hu.
  destruct (get o "password"); try discriminate Hp.
  cbn [Util.exists_ Util.isString negb].
  unfold regionRejected.
  rewrite (get_afterSplit_region o a Ha), Hreg.
  cbn [invalid Util.exists_ Util.isString negb andb].
  rewrite andb_false_r, checkAccessUrl_run. cbn [fst].
  unfold afterDerive.
  rewrite get_afterSplit_accessUrl, Hno,
    (get_afterSplit_region o a Ha), Hreg.
  cbn. rewrite get_set. cbn. apply get_set_same.
Qed.

Lemma us_west_2_region_erased_witness :
  failure (ConnectionConfig true anyTypeName
             (VObj (credentials "abc.us-west-2"
                    ++ [("proxyHost", VStr "h")]))
             VUndefined VUndefined VUndefined)
  = Some (MissingParameterError ERR_CONN_CREATE_MISSING_PROXY_PORT)
  /\ get_prop
       (fst (ConnectionConfig true anyTypeName
               (VObj (credentials "abc.us-west-2"
                      ++ [("proxyHost", VStr "h")]))
               VUndefined VUndefined VUndefined))
       "region"
     = VStr "".
Proof.
  split; [reflexivity|].
  exact (us_west_2_region_erased true anyTypeName
           (credentials "abc.us-west-2" ++ [("proxyHost", VStr "h")])%list
           VUndefined VUndefined VUndefined "abc.us-west-2"
           eq_refl eq_refl eq_refl eq_refl eq_refl eq_refl).
Defined.

(** X8. With credential validation on, string credentials, no access url
    and an account that does not split, a region that is there and is not a
    string makes the construction fail with the invalid-region error, and
    the options are left as they were. *)
Theorem invalid_region isNode isValidValue o vc qa ci a :
  validationOn vc = true ->
  Util.isString (get o "username") = true ->
  Util.isString (get o "password") = true ->
  get o "account" = VStr a ->
  splits a = false ->
  Util.exists_ (get o "accessUrl") = false ->
  invalid Util.isString (get o "region") = true ->
  ConnectionConfig isNode isValidValue (VObj o) vc qa ci
  = (VObj o,
     inl (InvalidParameterError ERR_CONN_CREATE_INVALID_REGION VUndefined)).
Proof.
  intros Hon Hu Hp Ha Hs Hno Hreg.
  rewrite ConnectionConfig_object, construct_run, validateIdentity_run.
  rewrite truthy_effectiveFlag, Hon, checkCredentials_run. cbn [snd].
  rewrite Ha.
  destruct (get o "username"); try discriminate.
  destruct (get o "password"); try discriminate.
  cbn [Util.exists_ Util.isString negb].
  rewrite (afterSplit_undotted o a Ha Hs).
  unfold regionRejected. rewrite Hno, Hreg. reflexivity.
Qed.

Lemma invalid_region_witness :
  ConnectionConfig true anyTypeName
    (VObj (credentials "abc" ++ [("region", VNum 5)]))
    VUndefined VUndefined VUndefined
  = (VObj (credentials "abc" ++ [("region", VNum 5)]),
     inl (InvalidParameterError ERR_CONN_CREATE_INVALID_REGION VUndefined)).
Proof.
  exact (invalid_region true anyTypeName
           (credentials "abc" ++ [("region", VNum 5)])%list
           VUndefined VUndefined VUndefined "abc"
           eq_refl eq_refl eq_refl eq_refl eq_refl eq_refl eq_refl).
Defined.

(** ** Which error, and when none *)

Ltac break_if :=
  match goal with
  | |- context [if ?b then _ else _] => destruct b eqn:?
  end.

Lemma failure_run isNode isValidValue o vc qa ci :
  failure (ConnectionConfig isNode isValidValue (VObj o) vc qa ci)
  = match validateIdentity (effectiveFlag vc) o with
    | (_, inl e) => Some e
    | (s, inr _) => thrown (configureOutcome isNode isValidValue qa ci s)
    end.
Proof.
  rewrite ConnectionConfig_object. unfold failure. cbn [snd].
  rewrite construct_run.
  destruct (validateIdentity (effectiveFlag vc) o) as [s [e|u]];
    reflexivity.
Qed.

(** The errors of the second stage depend on the checked fields and on the
    presence of a property named hasOwnProperty only. *)
Lemma configureOutcome_thrown_ext isNode isValidValue qa ci o1 o2 :
  (forall f, In f checkedFields -> get o1 f = get o2 f) ->
  has o1 "hasOwnProperty" = has o2 "hasOwnProperty" ->
  thrown (configureOutcome isNode isValidValue qa ci o1)
  = thrown (configureOutcome isNode isValidValue qa ci o2).
Proof.
  intros Hf Hh. unfold configureOutcome, proxyOutcome.
  rewrite Hh, (Hf "proxyHost"), (Hf "proxyPort"), (Hf "warehouse"),
    (Hf "database"), (Hf "schema"), (Hf "role"), (Hf "streamResult"),
    (Hf "fetchAsString") by (simpl; tauto).
  cbv zeta.
  match goal with
  | |- thrown (match ?p with _ => _ end) = _ => destruct p; [reflexivity|]
  end.
  repeat match goal with
         | |- thrown (if ?b then _ else _) = _ => destruct b; [reflexivity|]
         end.
  reflexivity.
Qed.

Lemma identity_keeps_checked_fields vc o s :
  validateIdentity vc o = (s, inr tt) ->
  forall f, In f checkedFields -> get s f = get o f.
Proof.
  intros Hid f Hf. apply get_frame, (validateIdentity_frame _ _ _ _ Hid);
    simpl in Hf; intuition (subst; discriminate).
Qed.

Lemma identity_keeps_shadow vc o s :
  validateIdentity vc o = (s, inr tt) ->
  has s "hasOwnProperty" = has o "hasOwnProperty".
Proof.
  intros Hid. unfold has.
  now rewrite (validateIdentity_frame _ _ _ "hasOwnProperty" Hid).
Qed.

(** Once the first stage has passed, the construction fails as the second
    stage does on the options as supplied. *)
Lemma failure_after_identity isNode isValidValue o vc qa ci :
  identityValid vc o = true ->
  failure (ConnectionConfig isNode isValidValue (VObj o) vc qa ci)
  = thrown (configureOutcome isNode isValidValue qa ci o).
Proof.
  intros Hv. apply validateIdentity_passes in Hv.
  rewrite failure_run.
  destruct (validateIdentity (effectiveFlag vc) o) as [s [e|[]]] eqn:E;
    [discriminate|].
  apply configureOutcome_thrown_ext.
  - now apply (identity_keeps_checked_fields _ _ _ E).
  - now apply (identity_keeps_shadow _ _ _ E).
Qed.

Lemma findInvalidValueFrom_minus_one isValidValue values :
  forall index,
    0 <= index ->
    findInvalidValueFrom isValidValue index values = -1 ->
    forallb isValidValue values = true.
Proof.
  induction values as [|v values IH]; simpl; intros index Hi H.
  - reflexivity.
  - destruct (isValidValue v); [|lia].
    apply (IH (index + 1)); [lia | exact H].
Qed.

Lemma fetchAsStringValid_checks isValidValue v :
  fetchAsStringValid isValidValue v
  = negb (invalid Util.isArray v)
    && negb (Util.exists_ v
             && negb (findInvalidValue isValidValue v =? -1)).
Proof.
  unfold fetchAsStringValid, invalid.
  destruct v as [| | | | |values|]; try reflexivity. simpl.
  destruct (forallb isValidValue values) eqn:E.
  - now rewrite (findInvalidValueFrom_valid _ _ 0 E).
  - destruct (findInvalidValueFrom isValidValue 0 values =? -1) eqn:E';
      [|reflexivity].
    apply Z.eqb_eq in E'.
    apply findInvalidValueFrom_minus_one in E'; [congruence|lia].
Qed.

Lemma proxyFieldsValid_outcome isNode o :
  proxyFieldsValid isNode o
  = match proxyOutcome isNode o with inr _ => true | inl _ => false end.
Proof.
  unfold proxyFieldsValid, proxyOutcome.
  destruct isNode, (get o "proxyHost"), (get o "proxyPort"); reflexivity.
Qed.

Lemma absentOr_invalid test v : absentOr test v = negb (invalid test v).
Proof.
  unfold absentOr, invalid. destruct (Util.exists_ v), (test v); reflexivity.
Qed.

(** The second stage builds a configuration exactly when the optional
    fields and the client information are absent or valid and the options
    hold no property named hasOwnProperty. *)
Lemma configureOutcome_valid isNode isValidValue qa ci o :
  match configureOutcome isNode isValidValue qa ci o with
  | inr _ => true
  | inl _ => false
  end
  = optionalFieldsValid isNode isValidValue o ci
    && negb (has o "hasOwnProperty").
Proof.
  unfold optionalFieldsValid.
  rewrite fetchAsStringValid_checks, proxyFieldsValid_outcome,
    !absentOr_invalid.
  unfold configureOutcome. cbv zeta.
  destruct (proxyOutcome isNode o); [reflexivity|]. cbn [andb].
  repeat match goal with
         | |- match (if ?b then _ else _) with _ => _ end = _ =>
             destruct b; cbn [negb andb]; [reflexivity|]
         end.
  destruct (clientInfoValid ci); cbn [negb andb]; [|reflexivity].
  destruct (has o "hasOwnProperty"); reflexivity.
Qed.

(** The second stage fails with the internal assertion error exactly when
    the optional fields are absent or valid and the client information is
    malformed. *)
Lemma configureOutcome_assertion isNode isValidValue qa ci o :
  thrown (configureOutcome isNode isValidValue qa ci o)
  = Some InternalAssertError
  <-> optionalFieldsValid isNode isValidValue o VUndefined = true
      /\ clientInfoValid ci = false.
Proof.
  unfold optionalFieldsValid.
  rewrite fetchAsStringValid_checks, proxyFieldsValid_outcome,
    !absentOr_invalid.
  unfold configureOutcome. cbv zeta.
  destruct (proxyOutcome isNode o) as [e|settings] eqn:Ep;
    cbn [thrown andb].
  - split; [|intros [H _]; discriminate]. intros H.
    injection H as ->. exfalso. revert Ep.
    unfold proxyOutcome. cbv zeta. repeat break_if; discriminate.
  - repeat match goal with
           | |- thrown (if ?b then _ else _) = _ <-> _ =>
               destruct b; cbn [thrown negb andb];
               [split; [discriminate | intros [H _]; discriminate]|]
           end.
    cbn [clientInfoValid Util.exists_ negb orb].
    destruct (clientInfoValid ci); cbn [negb thrown].
    + destruct (has o "hasOwnProperty"); cbn [thrown];
        (split; [discriminate | intros [_ H]; discriminate]).
    + split; [intros _; now split | reflexivity].
Qed.


(** X10. The construction fails with the missing-access-url error exactly
    when credential validation is off and no access url is supplied: with
    validation on that error cannot occur, the url being derived. *)
Theorem missing_access_url_iff isNode isValidValue o vc qa ci :
  failure (ConnectionConfig isNode isValidValue (VObj o) vc qa ci)
  = Some (MissingParameterError ERR_CONN_CREATE_MISSING_ACCESS_URL)
  <-> validationOn vc = false /\ Util.exists_ (get o "accessUrl") = false.
Proof.
  assert (forall s,
             thrown (configureOutcome isNode isValidValue qa ci s)
             <> Some (MissingParameterError
                        ERR_CONN_CREATE_MISSING_ACCESS_URL)) as Hc.
  { intros s. unfold configureOutcome, proxyOutcome. cbv zeta.
    repeat match goal with
           | |- thrown (match (if ?b then _ else _) with _ => _ end) <> _ =>
               destruct b; cbn [thrown]; try discriminate
           end;
      repeat match goal with
             | |- thrown (if ?b then _ else _) <> _ =>
                 destruct b; cbn [thrown]; try discriminate
             end. }
  rewrite failure_run, validateIdentity_run, truthy_effectiveFlag.
  destruct (validationOn vc).
  - split; [|intros [H _]; discriminate]. intros H. exfalso. revert H.
    rewrite checkCredentials_run. cbn [snd].
    repeat match goal with
           | |- match (match (if ?b then _ else _) with _ => _ end)
                with _ => _ end = _ -> False =>
               destruct b; [discriminate|]
           end.
    cbv beta iota.
    destruct (regionRejected (afterSplit o)); [discriminate|].
    rewrite checkAccessUrl_run, get_afterDerive_accessUrl.
    destruct (Util.exists_ (get (afterSplit o) "accessUrl")) eqn:Ex.
    + rewrite Ex. cbn [negb].
      destruct (negb (Util.isString (get (afterSplit o) "accessUrl")));
        [discriminate | apply Hc].
    + cbn [Util.exists_ Util.isString negb]. apply Hc.
  - rewrite checkAccessUrl_run.
    destruct (Util.exists_ (get o "accessUrl")); cbn [negb].
    + split; [|intros [_ H]; discriminate]. intros H. exfalso. revert H.
      destruct (negb (Util.isString (get o "accessUrl")));
        [discriminate | apply Hc].
    + split; [now split | reflexivity].
Qed.

(** X11. The client information is checked last, and its failure is an
    internal assertion: the construction fails with the internal assertion
    error exactly when the identity fields and all the optional fields of
    the options are in order and the client information is given and
    malformed. *)
Theorem internal_assertion_iff isNode isValidValue o vc qa ci :
  failure (ConnectionConfig isNode isValidValue (VObj o) vc qa ci)
  = Some InternalAssertError
  <-> identityValid vc o = true
      /\ optionalFieldsValid isNode isValidValue o VUndefined = true
      /\ clientInfoValid ci = false.
Proof.
  pose proof (configureOutcome_assertion isNode isValidValue qa ci o) as Hc.
  destruct (identityValid vc o) eqn:Ev.
  - rewrite (failure_after_identity _ _ _ _ _ _ Ev), Hc. tauto.
  - split; [|intros [H _]; discriminate]. intros H. exfalso.
    assert (snd (validateIdentity (effectiveFlag vc) o) <> inr tt) as Hn
      by (rewrite validateIdentity_passes; congruence).
    rewrite failure_run in H. revert H Hn.
    rewrite validateIdentity_run, truthy_effectiveFlag.
    destruct (validationOn vc).
    + rewrite checkCredentials_run. cbn [snd].
      repeat match goal with
             | |- match (match (if ?b then _ else _) with _ => _ end)
                  with _ => _ end = _ -> _ =>
                 destruct b; [discriminate|]
             end.
      cbv beta iota.
      destruct (regionRejected (afterSplit o)); [discriminate|].
      rewrite checkAccessUrl_run. cbn [snd].
      repeat (break_if; try discriminate).
      intros _ Hn. now apply Hn.
    + rewrite checkAccessUrl_run. cbn [snd].
      repeat (break_if; try discriminate).
      intros _ Hn. now apply Hn.
Qed.

(** X12. Once the identity fields are in order and the proxy fields raise
    no error, the optional fields are checked in the order warehouse,
    database, schema, role, streamResult, fetchAsString, and the first one
    that is there with the wrong type decides the error. *)
Theorem optional_field_errors isNode isValidValue o vc qa ci :
  identityValid vc o = true ->
  proxyFieldsValid isNode o = true ->
  let failed :=
    failure (ConnectionConfig isNode isValidValue (VObj o) vc qa ci) in
  let bad test k := invalid test (get o k) in
  (bad Util.isString "warehouse" = true ->
   failed
   = Some (InvalidParameterError ERR_CONN_CREATE_INVALID_WAREHOUSE
             VUndefined))
  /\ (bad Util.isString "warehouse" = false ->
      bad Util.isString "database" = true ->
      failed
      = Some (InvalidParameterError ERR_CONN_CREATE_INVALID_DATABASE
                VUndefined))
  /\ (bad Util.isString "warehouse" = false ->
      bad Util.isString "database" = false ->
      bad Util.isString "schema" = true ->
      failed
      = Some (InvalidParameterError ERR_CONN_CREATE_INVALID_SCHEMA
                VUndefined))
  /\ (bad Util.isString "warehouse" = false ->
      bad Util.isString "database" = false ->
      bad Util.isString "schema" = false ->
      bad Util.isString "role" = true ->
      failed
      = Some (InvalidParameterError ERR_CONN_CREATE_INVALID_ROLE VUndefined))
  /\ (bad Util.isString "warehouse" = false ->
      bad Util.isString "database" = false ->
      bad Util.isString "schema" = false ->
      bad Util.isString "role" = false ->
      bad Util.isBoolean "streamResult" = true ->
      failed
      = Some (InvalidParameterError ERR_CONN_CREATE_INVALID_STREAM_RESULT
                VUndefined))
  /\ (bad Util.isString "warehouse" = false ->
      bad Util.isString "database" = false ->
      bad Util.isString "schema" = false ->
      bad Util.isString "role" = false ->
      bad Util.isBoolean "streamResult" = false ->
      bad Util.isArray "fetchAsString" = true ->
      failed
      = Some (InvalidParameterError ERR_CONN_CREATE_INVALID_FETCH_AS_STRING
                VUndefined)).
Proof.
  intros Hid Hproxy failed bad. unfold failed, bad.
  rewrite (failure_after_identity _ _ _ _ _ _ Hid).
  rewrite proxyFieldsValid_outcome in Hproxy.
  unfold configureOutcome. cbv zeta.
  destruct (proxyOutcome isNode o); [discriminate|].
  repeat split; intros;
    repeat match goal with
           | H : invalid _ _ = _ |- _ => rewrite H; clear H
           end;
    reflexivity.
Qed.

Lemma optional_field_errors_witness :
  failure (ConnectionConfig true anyTypeName
             (VObj (credentials "abc"
                    ++ [("database", VNum 1); ("role", VBool true)]))
             VUndefined VUndefined VUndefined)
  = Some (InvalidParameterError ERR_CONN_CREATE_INVALID_DATABASE VUndefined).
Proof.
  exact (proj1 (proj2
           (optional_field_errors true anyTypeName
              (credentials "abc"
               ++ [("database", VNum 1); ("role", VBool true)])%list
              VUndefined VUndefined VUndefined eq_refl eq_refl))
           eq_refl eq_refl).
Defined.

(** X13. The proxy settings of a constructed configuration are all or
    nothing: [getProxy()] is undefined, which is so outside node and when
    neither proxy field is supplied, or it is the object holding the
    supplied host, a string, and the supplied port, a number. *)
Theorem proxy_all_or_nothing isNode isValidValue o vc qa ci r c :
  ConnectionConfig isNode isValidValue (VObj o) vc qa ci = (r, inr c) ->
  (getProxy c = VUndefined
   /\ (isNode = false
       \/ (Util.exists_ (get o "proxyHost") = false
           /\ Util.exists_ (get o "proxyPort") = false)))
  \/ (isNode = true
      /\ exists host port,
           get o "proxyHost" = VStr host
           /\ get o "proxyPort" = VNum port
           /\ getProxy c = VObj [("host", VStr host); ("port", VNum port)]).
Proof.
  intros H.
  apply constructed_identity in H as (o' & _ & Hid & _ & _ & _ & _ & Hp).
  rewrite resolveProxy_run in Hp.
  rewrite (identity_keeps_checked_fields _ _ _ Hid "proxyHost"),
    (identity_keeps_checked_fields _ _ _ Hid "proxyPort") in Hp
    by (simpl; tauto).
  unfold getProxy. cbv zeta in Hp.
  destruct isNode; simpl in Hp.
  - destruct (get o "proxyHost") as [| | | |host| |],
      (get o "proxyPort") as [| | |port| | |];
      simpl in Hp; try discriminate;
      inversion Hp;
      first [ left; split; [reflexivity | right; now split]
            | right; split; [reflexivity|]; exists host, port; now split ].
  - inversion Hp. left. split; [reflexivity | now left].
Qed.

Lemma proxy_all_or_nothing_witness :
  built (ConnectionConfig true anyTypeName
           (VObj (credentials "abc"
                  ++ [("proxyHost", VStr "proxy.example.com");
                      ("proxyPort", VNum 8080)]))
           VUndefined VUndefined VUndefined)
    (fun c =>
       getProxy c
       = VObj [("host", VStr "proxy.example.com"); ("port", VNum 8080)]).
Proof.
  unfold built.
  destruct (ConnectionConfig true anyTypeName
              (VObj (credentials "abc"
                     ++ [("proxyHost", VStr "proxy.example.com");
                         ("proxyPort", VNum 8080)]))
              VUndefined VUndefined VUndefined) as [r [e|c]] eqn:E.
  - vm_compute in E. discriminate E.
  - simpl.
    destruct (proxy_all_or_nothing _ _ _ _ _ _ _ _ E)
      as [(_ & [Hn|(Hh & _)])|(_ & host & port & Hh & Hp & Hc)].
    + discriminate Hn.
    + discriminate Hh.
    + injection Hh as <-. injection Hp as <-. exact Hc.
Defined.

(** ** The parameters of a constructed configuration *)

Lemma catalog_default_valid p :
  In p createParameters -> validate p (defaultValue p) = true.
Proof.
  intros Hp. simpl in Hp.
  repeat (destruct Hp as [<-|Hp]; [vm_compute; reflexivity|]).
  contradiction.
Qed.

Lemma catalog_validators_want_numbers p v :
  In p createParameters -> validate p v = true -> exists q, v = VNum q.
Proof.
  intros Hp. simpl in Hp.
  repeat (destruct Hp as [<-|Hp];
          [destruct v; simpl; try discriminate; intros _; now eexists|]).
  contradiction.
Qed.

Lemma constructed_parameter_value isNode isValidValue o vc qa ci r c p :
  ConnectionConfig isNode isValidValue (VObj o) vc qa ci = (r, inr c) ->
  In p createParameters ->
  _getParameterValue c (name p)
  = inr (if has o (name p) && external p && validate p (get o (name p))
         then get o (name p) else defaultValue p).
Proof.
  intros H Hp. unfold _getParameterValue.
  rewrite (constructed_parameters _ _ _ _ _ _ _ _ H).
  now rewrite (resolveFromCatalog_value o p Hp).
Qed.

(** X14. Every parameter of the catalog has a value in a constructed
    configuration, whatever the options held: its accessor returns a number
    that the parameter's own validator accepts. *)
Theorem parameters_always_valid isNode isValidValue o vc qa ci r c p :
  ConnectionConfig isNode isValidValue (VObj o) vc qa ci = (r, inr c) ->
  In p createParameters ->
  exists q,
    _getParameterValue c (name p) = inr (VNum q)
    /\ validate p (VNum q) = true.
Proof.
  intros H Hp.
  rewrite (constructed_parameter_value _ _ _ _ _ _ _ _ _ H Hp).
  destruct (has o (name p) && external p && validate p (get o (name p)))
    eqn:E.
  - apply andb_prop in E as [_ Hv].
    destruct (catalog_validators_want_numbers p _ Hp Hv) as [q Hq].
    exists q. rewrite Hq in *. now split.
  - pose proof (catalog_default_valid p Hp) as Hd.
    destruct (catalog_validators_want_numbers p _ Hp Hd) as [q Hq].
    exists q. rewrite Hq in *. now split.
Qed.

Lemma parameters_always_valid_witness :
  built (ConnectionConfig true anyTypeName
           (VObj (urlAnd "timeout" (VStr "soon")))
           (VBool false) VUndefined VUndefined)
    (fun c =>
       exists q,
         getTimeout c = inr (VNum q)
         /\ Util.number.isPositiveInteger (VNum q) = true).
Proof.
  unfold built.
  destruct (ConnectionConfig true anyTypeName
              (VObj (urlAnd "timeout" (VStr "soon")))
              (VBool false) VUndefined VUndefined) as [r [e|c]] eqn:E.
  - vm_compute in E. discriminate E.
  - simpl.
    exact (parameters_always_valid true anyTypeName _ _ _ _ r c
             timeoutParameter E (or_introl eq_refl)).
Defined.

(** X15. Ten of the twelve parameters cannot be set through the options:
    their accessors return the catalog's defaults on every constructed
    configuration. *)
Theorem internal_parameters_fixed isNode isValidValue o vc qa ci r c :
  ConnectionConfig isNode isValidValue (VObj o) vc qa ci = (r, inr c) ->
  getResultStreamInterrupts c = inr (VNum 3)
  /\ getResultChunkCacheSize c = inr (VNum 1)
  /\ getResultProcessingBatchSize c = inr (VNum 1000)
  /\ getResultProcessingBatchDuration c = inr (VNum 100)
  /\ getRowStreamHighWaterMark c = inr (VNum 10)
  /\ getRetryLargeResultSetMaxNumRetries c = inr (VNum 10)
  /\ getRetryLargeResultSetMaxSleepTime c = inr (VNum 16)
  /\ getRetrySfMaxNumRetries c = inr (VNum 1000)
  /\ getRetrySfStartingSleepTime c = inr (VNum (1 # 4))
  /\ getRetrySfMaxSleepTime c = inr (VNum 16).
Proof.
  intros H.
  assert (forall p,
             In p createParameters -> external p = false ->
             _getParameterValue c (name p) = inr (defaultValue p)) as Hfix.
  { intros p Hp He.
    rewrite (constructed_parameter_value _ _ _ _ _ _ _ _ _ H Hp), He.
    now rewrite andb_false_r. }
  repeat split.
  all: unfold getResultStreamInterrupts, getResultChunkCacheSize,
         getResultProcessingBatchSize, getResultProcessingBatchDuration,
         getRowStreamHighWaterMark, getRetryLargeResultSetMaxNumRetries,
         getRetryLargeResultSetMaxSleepTime, getRetrySfMaxNumRetries,
         getRetrySfStartingSleepTime, getRetrySfMaxSleepTime.
  - apply (Hfix (descriptor PARAM_RESULT_STREAM_INTERRUPTS 3 false
                   Util.number.isPositiveInteger));
      [simpl; tauto | reflexivity].
  - apply (Hfix (descriptor PARAM_RESULT_CHUNK_CACHE_SIZE 1 false
                   Util.number.isPositiveInteger));
      [simpl; tauto | reflexivity].
  - apply (Hfix (descriptor PARAM_RESULT_PROCESSING_BATCH_SIZE 1000 false
                   Util.number.isPositiveInteger));
      [simpl; tauto | reflexivity].
  - apply (Hfix (descriptor PARAM_RESULT_PROCESSING_BATCH_DURATION 100 false
                   Util.number.isPositiveInteger));
      [simpl; tauto | reflexivity].
  - apply (Hfix (descriptor PARAM_ROW_STREAM_HIGH_WATER_MARK 10 false
                   Util.number.isPositiveInteger));
      [simpl; tauto | reflexivity].
  - apply (Hfix (descriptor PARAM_RETRY_LARGE_RESULT_SET_MAX_NUM_RETRIES 10
                   false Util.number.isNonNegativeInteger));
      [simpl; tauto | reflexivity].
  - apply (Hfix (descriptor PARAM_RETRY_LARGE_RESULT_SET_MAX_SLEEP_TIME 16
                   false Util.number.isNonNegativeInteger));
      [simpl; tauto | reflexivity].
  - apply (Hfix (descriptor PARAM_RETRY_SF_MAX_NUM_RETRIES 1000 false
                   Util.number.isNonNegativeInteger));
      [simpl; tauto | reflexivity].
  - apply (Hfix (descriptor PARAM_RETRY_SF_STARTING_SLEEP_TIME (1 # 4) false
                   Util.number.isNonNegative));
      [simpl; tauto | reflexivity].
  - apply (Hfix (descriptor PARAM_RETRY_SF_MAX_SLEEP_TIME 16 false
                   Util.number.isNonNegative));
      [simpl; tauto | reflexivity].
Qed.

Lemma internal_parameters_fixed_witness :
  built (ConnectionConfig true anyTypeName
           (VObj (urlAnd "sfRetryMaxNumRetries" (VNum 5)))
           (VBool false) VUndefined VUndefined)
    (fun c => getRetrySfMaxNumRetries c = inr (VNum 1000)).
Proof.
  unfold built.
  destruct (ConnectionConfig true anyTypeName
              (VObj (urlAnd "sfRetryMaxNumRetries" (VNum 5)))
              (VBool false) VUndefined VUndefined) as [r [e|c]] eqn:E.
  - vm_compute in E. discriminate E.
  - simpl.
    destruct (internal_parameters_fixed _ _ _ _ _ _ _ _ E)
      as (_ & _ & _ & _ & _ & _ & _ & Hn & _).
    exact Hn.
Defined.

Lemma get_absent (o : object) k : has o k = false -> get o k = VUndefined.
Proof. unfold has, get. destruct (own o k); [discriminate | reflexivity]. Qed.

(** X16. The two external parameters: [getTimeout()] returns the [timeout]
    of the options when that is a positive integer and 90000 otherwise, also
    when there is none; [getResultPrefetch()] returns [resultPrefetch] when
    that is a positive integer and 2 otherwise. *)
Theorem external_parameters isNode isValidValue o vc qa ci r c :
  ConnectionConfig isNode isValidValue (VObj o) vc qa ci = (r, inr c) ->
  getTimeout c
  = inr (if Util.number.isPositiveInteger (get o "timeout")
         then get o "timeout" else VNum 90000)
  /\ getResultPrefetch c
     = inr (if Util.number.isPositiveInteger (get o "resultPrefetch")
            then get o "resultPrefetch" else VNum 2).
Proof.
  intros H.
  pose proof (constructed_parameter_value _ _ _ _ _ _ _ _ timeoutParameter H
                ltac:(simpl; tauto)) as Ht.
  pose proof (constructed_parameter_value _ _ _ _ _ _ _ _
                (descriptor PARAM_RESULT_PREFETCH 2 true
                   Util.number.isPositiveInteger) H
                ltac:(simpl; tauto)) as Hp.
  cbn [name external validate defaultValue timeoutParameter descriptor
       PARAM_TIMEOUT PARAM_RESULT_PREFETCH] in Ht, Hp.
  unfold getTimeout, getResultPrefetch.
  unfold PARAM_TIMEOUT, PARAM_RESULT_PREFETCH in *.
  rewrite Ht, Hp. split.
  - destruct (has o "timeout") eqn:Eh; cbn [andb]; [reflexivity|].
    now rewrite (get_absent _ _ Eh).
  - destruct (has o "resultPrefetch") eqn:Eh; cbn [andb]; [reflexivity|].
    now rewrite (get_absent _ _ Eh).
Qed.

Lemma external_parameters_witness :
  built (ConnectionConfig true anyTypeName (VObj (credentials "abc"))
           VUndefined VUndefined VUndefined)
    (fun c =>
       getTimeout c = inr (VNum 90000)
       /\ getResultPrefetch c = inr (VNum 2)).
Proof.
  unfold built.
  destruct (ConnectionConfig true anyTypeName (VObj (credentials "abc"))
              VUndefined VUndefined VUndefined) as [r [e|c]] eqn:E.
  - vm_compute in E. discriminate E.
  - simpl.
    exact (external_parameters true anyTypeName (credentials "abc")
             VUndefined VUndefined VUndefined r c E).
Defined.

(** ** The optional fields of a constructed configuration *)

Lemma configureOutcome_fields isNode isValidValue qa ci s c :
  configureOutcome isNode isValidValue qa ci s = inr c ->
  warehouse c = get s "warehouse"
  /\ database c = get s "database"
  /\ schema c = get s "schema"
  /\ role c = get s "role"
  /\ streamResult c = get s "streamResult"
  /\ fetchAsString c = get s "fetchAsString"
  /\ _qaMode c = qa
  /\ clientVersion c
     = (if Util.exists_ ci then get_prop ci "version" else VUndefined)
  /\ clientEnvironment c
     = (if Util.exists_ ci then get_prop ci "environment" else VUndefined).
Proof.
  unfold configureOutcome. cbv zeta.
  destruct (proxyOutcome isNode s); [discriminate|].
  repeat match goal with
         | |- (if ?b then _ else _) = _ -> _ => destruct b; [discriminate|]
         end.
  intros H. inversion H. repeat split.
Qed.

(** X17. The pass-through accessors of a constructed configuration return
    what the caller supplied, unchanged: the optional fields of the options
    (each absent or of its type: strings, and a boolean for streamResult),
    the qaMode argument as given, and the version and environment of the
    client information, undefined when none was given. *)
Theorem accessors_pass_through isNode isValidValue o vc qa ci r c :
  ConnectionConfig isNode isValidValue (VObj o) vc qa ci = (r, inr c) ->
  getWarehouse c = get o "warehouse"
  /\ getDatabase c = get o "database"
  /\ getSchema c = get o "schema"
  /\ getRole c = get o "role"
  /\ getStreamResult c = get o "streamResult"
  /\ getFetchAsString c = get o "fetchAsString"
  /\ absentOr Util.isString (getWarehouse c) = true
  /\ absentOr Util.isString (getDatabase c) = true
  /\ absentOr Util.isString (getSchema c) = true
  /\ absentOr Util.isString (getRole c) = true
  /\ absentOr Util.isBoolean (getStreamResult c) = true
  /\ isQaMode c = qa
  /\ getClientVersion c
     = (if Util.exists_ ci then get_prop ci "version" else VUndefined)
  /\ getClientEnvironment c
     = (if Util.exists_ ci then get_prop ci "environment" else VUndefined).
Proof.
  intros H.
  apply ConnectionConfig_inv in H as (o' & _ & Hid & Hc).
  rewrite configure_run in Hc. inversion Hc as [Hc'].
  pose proof (configureOutcome_valid isNode isValidValue qa ci o') as Hv.
  rewrite Hc' in Hv. symmetry in Hv.
  apply configureOutcome_fields in Hc'
    as (Hw & Hd & Hs & Hr & Hsr & Hf & Hq & Hcv & Hce).
  pose proof (identity_keeps_checked_fields _ _ _ Hid) as Hk.
  unfold optionalFieldsValid in Hv.
  rewrite Hk in Hw, Hd, Hs, Hr, Hsr, Hf by (simpl; tauto).
  rewrite !Hk in Hv by (simpl; tauto).
  unfold getWarehouse, getDatabase, getSchema, getRole, getStreamResult,
    getFetchAsString, isQaMode, getClientVersion, getClientEnvironment.
  rewrite Hw, Hd, Hs, Hr, Hsr, Hf.
  apply andb_prop in Hv as [Hv _].
  apply andb_prop in Hv as [Hv _]. apply andb_prop in Hv as [Hv _].
  apply andb_prop in Hv as [Hv Hvsr]. apply andb_prop in Hv as [Hv Hvr].
  apply andb_prop in Hv as [Hv Hvs]. apply andb_prop in Hv as [Hv Hvd].
  apply andb_prop in Hv as [_ Hvw].
  repeat split; assumption.
Qed.

Lemma accessors_pass_through_witness :
  built (ConnectionConfig true anyTypeName
           (VObj (credentials "abc"
                  ++ [("warehouse", VStr "wh"); ("streamResult", VBool true)]))
           VUndefined (VBool true) VUndefined)
    (fun c =>
       getWarehouse c = VStr "wh" /\ getStreamResult c = VBool true
       /\ getRole c = VUndefined /\ isQaMode c = VBool true).
Proof.
  unfold built.
  destruct (ConnectionConfig true anyTypeName
              (VObj (credentials "abc"
                     ++ [("warehouse", VStr "wh");
                         ("streamResult", VBool true)]))
              VUndefined (VBool true) VUndefined) as [r [e|c]] eqn:E.
  - vm_compute in E. discriminate E.
  - simpl.
    destruct (accessors_pass_through _ _ _ _ _ _ _ _ E)
      as (Hw & _ & _ & Hr & Hs & _ & _ & _ & _ & _ & _ & Hq & _).
    repeat split; assumption.
Defined.

(** ** The split of the account *)

Lemma substring_prefix_length s :
  forall n, (n <= String.length s)%nat ->
            String.length (String.substring 0 n s) = n.
Proof.
  induction s as [|a s IH]; intros [|n] Hn; simpl in *;
    try reflexivity; try lia.
  rewrite IH by lia. reflexivity.
Qed.

Lemma append_length s1 s2 :
  String.length (s1 ++ s2)
  = (String.length s1 + String.length s2)%nat.
Proof. induction s1 as [|a s1 IH]; simpl; [reflexivity | now rewrite IH]. Qed.

(** X18. When the first dot of the account is neither its first nor its
    last character, the split step loses nothing: it writes to the options
    an account and a region that are not empty, the account holds no dot,
    and the supplied account is that account, a dot, and that region. *)
Theorem split_is_lossless o o' a :
  get o "account" = VStr a ->
  0 < indexOf a "." < str_length a - 1 ->
  splitAccount o = (o', inr tt) ->
  exists b r,
    get o' "account" = VStr b
    /\ get o' "region" = VStr r
    /\ a = (b ++ "." ++ r)%string
    /\ b <> "" /\ r <> ""
    /\ indexOf b "." = -1.
Proof.
  intros Ha [Hlo Hhi] Hrun.
  assert (splits a = true) as Hs
    by (unfold splits; apply andb_true_intro; split; now apply Z.ltb_lt).
  rewrite splitAccount_run in Hrun. inversion Hrun as [Ho'].
  exists (beforeDot a), (afterDot a).
  pose proof (account_parts a Hs) as Hparts.
  assert (String.length (beforeDot a) = Z.to_nat (indexOf a ".")) as Hlen.
  { rewrite (beforeDot_prefix a Hs). apply substring_prefix_length.
    unfold str_length in Hhi. lia. }
  split; [|split; [|split; [exact Hparts|split; [|split]]]].
  - rewrite (get_afterSplit_account o a Ha), Hs. reflexivity.
  - rewrite (get_afterSplit_region o a Ha), Hs. reflexivity.
  - intros Hb. rewrite Hb in Hlen. simpl in Hlen. lia.
  - intros Hr. apply (f_equal String.length) in Hparts.
    rewrite !append_length, Hlen, Hr in Hparts. simpl in Hparts.
    unfold str_length in Hhi. lia.
  - rewrite (beforeDot_prefix a Hs). apply indexOf_prefix. lia.
Qed.

Lemma split_is_lossless_witness :
  exists b r,
    get (fst (splitAccount (credentials "abc.eu-central-1"))) "account"
    = VStr b
    /\ get (fst (splitAccount (credentials "abc.eu-central-1"))) "region"
       = VStr r
    /\ "abc.eu-central-1" = (b ++ "." ++ r)%string
    /\ b <> "" /\ r <> ""
    /\ indexOf b "." = -1.
Proof.
  apply (split_is_lossless (credentials "abc.eu-central-1")
           (fst (splitAccount (credentials "abc.eu-central-1")))
           "abc.eu-central-1" eq_refl).
  - split; reflexivity.
  - reflexivity.
Defined.

(** ** More on the identity stage *)

(** X19. With credential validation on, a credential that is there but is
    not a string fails the construction with that credential's
    invalid-field error, provided the credentials checked before it
    (username, then password, then account) are strings; the options are
    left as they were. *)
Theorem credential_type_errors isNode isValidValue o vc qa ci :
  validationOn vc = true ->
  let run := ConnectionConfig isNode isValidValue (VObj o) vc qa ci in
  let bad k := invalid Util.isString (get o k) in
  (bad "username" = true ->
   run = (VObj o,
          inl (InvalidParameterError ERR_CONN_CREATE_INVALID_USERNAME
                 VUndefined)))
  /\ (Util.isString (get o "username") = true ->
      bad "password" = true ->
      run = (VObj o,
             inl (InvalidParameterError ERR_CONN_CREATE_INVALID_PASSWORD
                    VUndefined)))
  /\ (Util.isString (get o "username") = true ->
      Util.isString (get o "password") = true ->
      bad "account" = true ->
      run = (VObj o,
             inl (InvalidParameterError ERR_CONN_CREATE_INVALID_ACCOUNT
                    VUndefined))).
Proof.
  intros Hon run bad. unfold run, bad, invalid.
  rewrite ConnectionConfig_object, construct_run, validateIdentity_run.
  rewrite truthy_effectiveFlag, Hon, checkCredentials_run. cbn [snd].
  repeat split.
  - destruct (get o "username"); simpl; try discriminate; reflexivity.
  - destruct (get o "username"); simpl; try discriminate.
    destruct (get o "password"); simpl; try discriminate; reflexivity.
  - destruct (get o "username"); simpl; try discriminate.
    destruct (get o "password"); simpl; try discriminate.
    destruct (get o "account"); simpl; try discriminate; reflexivity.
Qed.

Lemma credential_type_errors_witness :
  ConnectionConfig true anyTypeName
    (VObj [("username", VStr "user"); ("password", VNum 1234);
           ("account", VStr "abc")])
    VUndefined VUndefined VUndefined
  = (VObj [("username", VStr "user"); ("password", VNum 1234);
           ("account", VStr "abc")],
     inl (InvalidParameterError ERR_CONN_CREATE_INVALID_PASSWORD
            VUndefined)).
Proof.
  exact (proj1 (proj2
           (credential_type_errors true anyTypeName
              [("username", VStr "user"); ("password", VNum 1234);
               ("account", VStr "abc")]
              VUndefined VUndefined VUndefined eq_refl))
           eq_refl eq_refl).
Defined.

(** X20. A supplied access url that is not a string fails the construction
    with the invalid-access-url error, with validation off and, given
    string credentials, with validation on. *)
Theorem invalid_access_url isNode isValidValue o vc qa ci :
  invalid Util.isString (get o "accessUrl") = true ->
  validationOn vc = false
  \/ (Util.isString (get o "username") = true
      /\ Util.isString (get o "password") = true
      /\ Util.isString (get o "account") = true) ->
  failure (ConnectionConfig isNode isValidValue (VObj o) vc qa ci)
  = Some (InvalidParameterError ERR_CONN_CREATE_INVALID_ACCESS_URL
            VUndefined).
Proof.
  unfold invalid. intros Hbad Hor.
  rewrite failure_run, validateIdentity_run, truthy_effectiveFlag.
  apply andb_prop in Hbad as [Hex Hns].
  destruct (validationOn vc).
  - destruct Hor as [Hoff|(Hu & Hp & Ha)]; [discriminate|].
    rewrite checkCredentials_run. cbn [snd].
    destruct (get o "username"); try discriminate.
    destruct (get o "password"); try discriminate.
    destruct (get o "account"); try discriminate.
    cbn [Util.exists_ Util.isString negb].
    unfold regionRejected. rewrite get_afterSplit_accessUrl, Hex.
    cbn [negb andb].
    rewrite checkAccessUrl_run, get_afterDerive_accessUrl,
      get_afterSplit_accessUrl, Hex.
    cbv iota. rewrite Hex, Hns. reflexivity.
  - rewrite checkAccessUrl_run, Hex, Hns. reflexivity.
Qed.

Lemma invalid_access_url_witness :
  failure (ConnectionConfig true anyTypeName
             (VObj (credentials "abc" ++ [("accessUrl", VNum 5)]))
             VUndefined VUndefined VUndefined)
  = Some (InvalidParameterError ERR_CONN_CREATE_INVALID_ACCESS_URL
            VUndefined).
Proof.
  apply (invalid_access_url true anyTypeName
           (credentials "abc" ++ [("accessUrl", VNum 5)])%list
           VUndefined VUndefined VUndefined eq_refl).
  right. repeat split.
Defined.

(** X21. The split of the account is not undone by a later failure: with
    credential validation on, string credentials and an account that
    splits, the caller's options hold the part before the dot as account
    once the constructor has returned or thrown, whatever the outcome. *)
Theorem split_survives_failure isNode isValidValue o vc qa ci a :
  validationOn vc = true ->
  Util.isString (get o "username") = true ->
  Util.isString (get o "password") = true ->
  get o "account" = VStr a ->
  splits a = true ->
  get_prop (fst (ConnectionConfig isNode isValidValue (VObj o) vc qa ci))
    "account"
  = VStr (beforeDot a).
Proof.
  intros Hon Hu Hp Ha Hs.
  rewrite ConnectionConfig_object. cbn [fst get_prop].
  rewrite construct_state, validateIdentity_run, truthy_effectiveFlag, Hon.
  rewrite checkCredentials_run. cbn [snd]. rewrite Ha.
  destruct (get o "username"); try discriminate.
  destruct (get o "password"); try discriminate.
  cbn [Util.exists_ Util.isString negb].
  assert (get (afterSplit o) "account" = VStr (beforeDot a)) as Hb
    by (rewrite (get_afterSplit_account o a Ha), Hs; reflexivity).
  destruct (regionRejected (afterSplit o)); cbn [fst]; [exact Hb|].
  rewrite checkAccessUrl_run. cbn [fst].
  rewrite (get_frame (afterSplit o) (afterDerive (afterSplit o)))
    by (apply own_afterDerive; discriminate).
  exact Hb.
Qed.

Lemma split_survives_failure_witness :
  failure (ConnectionConfig true anyTypeName
             (VObj (credentials "abc.eu-central-1"
                    ++ [("accessUrl", VNum 5)]))
             VUndefined VUndefined VUndefined)
  = Some (InvalidParameterError ERR_CONN_CREATE_INVALID_ACCESS_URL
            VUndefined)
  /\ get_prop
       (fst (ConnectionConfig true anyTypeName
               (VObj (credentials "abc.eu-central-1"
                      ++ [("accessUrl", VNum 5)]))
               VUndefined VUndefined VUndefined))
       "account"
     = VStr "abc".
Proof.
  split; [reflexivity|].
  exact (split_survives_failure true anyTypeName
           (credentials "abc.eu-central-1" ++ [("accessUrl", VNum 5)])%list
           VUndefined VUndefined VUndefined "abc.eu-central-1"
           eq_refl eq_refl eq_refl eq_refl eq_refl).
Defined.

(** ** The call of hasOwnProperty on the options *)




